(** * Hamming(7,4) codec of [submission/hamming_code.py]

    A shallow embedding of the classes [Support] and [Hamming] and the
    properties of the codec: round trip, single-error correction, the
    three-way decoding outcome, the kernel of the parity-check matrix and
    the behaviour of the two fault injectors.

    Conventions.
    - A one-dimensional [np.ndarray] is a [list Z].  Arithmetic is only
      done on arrays that passed [check_input], and then every value
      computed lies between 0 and 7, so the wrap-around of numpy integers
      never occurs and is not written out.
    - The modules [Support] and [Hamming] are the functions on a
      one-dimensional array of the default integer type [int64], for which
      the dtype test of lines 65-66 holds.  The modules [Literal] and
      [Full] are the same functions on every form of argument, the dtype of
      an array argument included; on an array of an integer dtype they do
      what [Support] and [Hamming] do.
    - The codec works on one array object at a time (the argument [x],
      [input] or [codeword]); its contents are the field [mem] of the
      [world].  [check_input] hands an [np.ndarray] argument back unchanged
      (line 54 only converts when the argument is not yet an array), so the
      later item assignments act on that same object.
    - [print] appends a [line] to the field [out] of the world.
    - [random.randint] reads the next element of the entropy stream [rng].
    - The functions return in the monad [Py]: a result or a raised
      exception, together with the world at that point. *)

From Stdlib Require Import ZArith Lia Bool.
From stdpp Require Import base option list gmap.
From Stdlib Require Ascii String DecimalString DecimalFacts DecimalPos DecimalZ.

Local Open Scope Z_scope.

(** ** The pieces of Python and numpy the source uses *)

(** The exceptions of the source ([TypeError] is raised by [check_input]
    on arguments that are no integer, string, list or array, which the
    embedding does not consider) and of numpy subscripts. *)
Inductive exn : Set := TypeError | ValueError | IndexError.

Inductive result (A : Type) : Type :=
| Ok (a : A)
| Raise (e : exn)
| OutOfFuel.
Arguments Ok {A} a.
Arguments Raise {A} e.
Arguments OutOfFuel {A}.

(** One constructor per [print] statement of the source, with the values
    the f-string interpolates. *)
Inductive line : Type :=
| CodewordIs (codeword : list Z)            (* line 169 *)
| ErrorVectorIs (error_syndrome : list Z)   (* line 187 *)
| NoErrorOccurred                           (* line 191 *)
| SumIsOneOnCheck                           (* line 193 *)
| BitflipOccurredAt (bitflip_pos : Z)       (* line 202 *)
| NoBitflipError                            (* line 223 *)
| OriginalVectorIs (binary_decoded : list Z) (* lines 226 and 246 *)
| SumIsOneOnDecode                          (* line 228 *)
| BitWasFlipped (bitflip_pos : Z)           (* line 237 *)
| CorrectedCodewordIs (codeword : list Z).  (* line 244 *)

Record world : Type := World {
  mem : list Z;        (* contents of the array object the call works on *)
  out : list line;     (* what has been printed, oldest first *)
  rng : nat -> Z;      (* entropy consumed by [random.randint] *)
  drawn : nat          (* number of draws made so far *)
}.

Definition Py (A : Type) : Type := world -> result A * world.

Module Py.

Definition ret {A} (a : A) : Py A := fun w => (Ok a, w).

Definition bind {A B} (m : Py A) (k : A -> Py B) : Py B :=
  fun w =>
    match m w with
    | (Ok a, w') => k a w'
    | (Raise e, w') => (Raise e, w')
    | (OutOfFuel, w') => (OutOfFuel, w')
    end.

Definition raise {A} (e : exn) : Py A := fun w => (Raise e, w).

Definition diverge {A} : Py A := fun w => (OutOfFuel, w).

(** Reading the array through its reference. *)
Definition load : Py (list Z) := fun w => (Ok (mem w), w).

Definition store (a : list Z) : Py unit :=
  fun w => (Ok tt, World a (out w) (rng w) (drawn w)).

Definition print (l : line) : Py unit :=
  fun w => (Ok tt, World (mem w) (out w ++ [l]) (rng w) (drawn w)).

(** [random.randint(a, b)]: an integer of [a..b], both ends included. *)
Definition randint (a b : Z) : Py Z :=
  fun w => (Ok (a + rng w (drawn w) `mod` (b - a + 1)),
            World (mem w) (out w) (rng w) (S (drawn w))).

Definition lift {A} (r : result A) : Py A := fun w => (r, w).

End Py.

Notation "x <- m ;; k" := (Py.bind m (fun x => k))
  (at level 100, m at next level, right associativity, only parsing).
Notation "m ;;; k" := (Py.bind m (fun _ => k))
  (at level 100, right associativity, only parsing).

Module Np.

(** [x.size] of a one-dimensional array. *)
Definition size (x : list Z) : Z := Z.of_nat (length x).

Definition dot (row v : list Z) : Z := foldr Z.add 0 (zip_with Z.mul row v).

(** [np.matmul(M, v)] of a matrix and a vector: the shapes must agree. *)
Definition matmul (M : list (list Z)) (v : list Z) : result (list Z) :=
  if forallb (fun row => length row =? length v)%nat M
  then Ok (map (fun row => dot row v) M)
  else Raise ValueError.

(** [v % 2], elementwise; Python's [%] takes the sign of the divisor,
    as [Z.modulo] does. *)
Definition mod2 (v : list Z) : list Z := map (fun a => a `mod` 2) v.

Definition sum (v : list Z) : Z := foldr Z.add 0 v.

(** [M.transpose().tolist()]: the list of the columns of [M]. *)
Fixpoint transpose (M : list (list Z)) : list (list Z) :=
  match M with
  | [] => []
  | row :: rest =>
      match rest with
      | [] => map (fun a => [a]) row
      | _ :: _ => zip_with cons row (transpose rest)
      end
  end.

(** [l.index(v)]: the first position holding [v], [ValueError] if none. *)
Fixpoint index (l : list (list Z)) (v : list Z) : result Z :=
  match l with
  | [] => Raise ValueError
  | a :: l' =>
      if decide (a = v) then Ok 0
      else match index l' v with
           | Ok i => Ok (i + 1)
           | Raise e => Raise e
           | OutOfFuel => OutOfFuel
           end
  end.

(** An integer subscript: [-n..-1] counts from the end, anything outside
    [-n..n-1] is an [IndexError]. *)
Definition subscript (n : nat) (i : Z) : result nat :=
  if (0 <=? i) && (i <? Z.of_nat n) then Ok (Z.to_nat i)
  else if (- Z.of_nat n <=? i) && (i <? 0) then Ok (Z.to_nat (Z.of_nat n + i))
  else Raise IndexError.

(** [x[i]] *)
Definition getitem (i : Z) : Py Z :=
  x <- Py.load ;;
  j <- Py.lift (subscript (length x) i) ;;
  match x !! j with
  | Some v => Py.ret v
  | None => Py.raise IndexError
  end.

(** [x[i] = v] *)
Definition setitem (i : Z) (v : Z) : Py unit :=
  x <- Py.load ;;
  j <- Py.lift (subscript (length x) i) ;;
  Py.store (<[j := v]> x).

End Np.

(** ** class Support *)

Module Support.

(** [check_input(x, input_length)] on a one-dimensional array of an
    integer dtype, lines 61-72.  The earlier lines turn an [int], a [str]
    or a [list] into such an array and refuse other types; the dtype test
    of line 65 holds for an integer dtype and is not written here.  The
    array that comes back is the argument itself.  [Literal.check_input]
    further down is the function on every form of argument, with the
    earlier lines and the dtype test. *)
Definition check_input (input_length : Z) : Py unit :=
  x <- Py.load ;;
  if negb (Np.size x =? input_length) then Py.raise ValueError
  else if negb (forallb (fun a => (a =? 0) || (a =? 1)) x) then Py.raise ValueError
  else Py.ret tt.

(** The [while True] loop of lines 97-103; [fuel] bounds the number of
    iterations the model follows. *)
Fixpoint flip_loop (fuel : nat) (number_of_bits_to_flip : Z)
    (flipped_bits : gset Z) : Py unit :=
  match fuel with
  | O => Py.diverge
  | S fuel' =>
      i <- Py.randint 0 6 ;;
      flipped_bits' <-
        (if decide (i ∈ flipped_bits) then Py.ret flipped_bits
         else
           (let flipped_bits := {[i]} ∪ flipped_bits in
            v <- Np.getitem i ;;
            Np.setitem i (1 - v) ;;;
            Py.ret flipped_bits)) ;;
      if Z.of_nat (size flipped_bits') =? number_of_bits_to_flip
      then Py.ret tt
      else flip_loop fuel' number_of_bits_to_flip flipped_bits'
  end.

Definition bitflip_rand (fuel : nat) (number_of_bits_to_flip : Z) : Py (list Z) :=
  check_input 7 ;;;
  (if number_of_bits_to_flip >? 2 then Py.raise ValueError
   else flip_loop fuel number_of_bits_to_flip ∅) ;;;
  Py.load.

Definition bitflip_specific (bit_to_flip : Z) : Py (list Z) :=
  check_input 7 ;;;
  (if bit_to_flip >? 6 then Py.raise ValueError
   else
     (v <- Np.getitem bit_to_flip ;;
      Np.setitem bit_to_flip (1 - v))) ;;;
  Py.load.

End Support.

(** ** class Hamming *)

Module Hamming.

Definition G : list (list Z) :=
  [[1; 1; 0; 1];
   [1; 0; 1; 1];
   [1; 0; 0; 0];
   [0; 1; 1; 1];
   [0; 1; 0; 0];
   [0; 0; 1; 0];
   [0; 0; 0; 1]].

Definition H : list (list Z) :=
  [[1; 0; 1; 0; 1; 0; 1];
   [0; 1; 1; 0; 0; 1; 1];
   [0; 0; 0; 1; 1; 1; 1]].

Definition R : list (list Z) :=
  [[0; 0; 1; 0; 0; 0; 0];
   [0; 0; 0; 0; 1; 0; 0];
   [0; 0; 0; 0; 0; 1; 0];
   [0; 0; 0; 0; 0; 0; 1]].

(** [np.matmul(M, x) % 2] on the array of the world. *)
Definition matmul_mod2 (M : list (list Z)) : Py (list Z) :=
  x <- Py.load ;;
  p <- Py.lift (Np.matmul M x) ;;
  Py.ret (Np.mod2 p).

(** [encoder] on an array of the default integer dtype, whose product with
    [G] is again such an array; [Full.encoder] further down gives the dtype
    of what is returned for the other dtypes. *)
Definition encoder : Py (list Z) :=
  Support.check_input 4 ;;;
  codeword <- matmul_mod2 G ;;
  Py.print (CodewordIs codeword) ;;;
  Py.ret codeword.

(** Lines 196-201 and 231-236: the 1-based position of the column of [H]
    that equals the syndrome. *)
Definition locate (error_syndrome : list Z) : Py Z :=
  let transposed_parity := Np.transpose H in
  let list_parity := transposed_parity in
  list_parity_index <- Py.lift (Np.index list_parity error_syndrome) ;;
  Py.ret (list_parity_index + 1).

Definition parity_check : Py unit :=
  Support.check_input 7 ;;;
  error_syndrome <- matmul_mod2 H ;;
  Py.print (ErrorVectorIs error_syndrome) ;;;
  let sum_error_syndrome := Np.sum error_syndrome in
  if sum_error_syndrome =? 0 then Py.print NoErrorOccurred
  else if sum_error_syndrome =? 1 then Py.print SumIsOneOnCheck
  else
    (bitflip_pos <- locate error_syndrome ;;
     Py.print (BitflipOccurredAt bitflip_pos)).

Definition decoder : Py unit :=
  Support.check_input 7 ;;;
  error_syndrome <- matmul_mod2 H ;;
  let sum_error_syndrome := Np.sum error_syndrome in
  if sum_error_syndrome =? 0 then
    (Py.print NoBitflipError ;;;
     binary_decoded <- matmul_mod2 R ;;
     Py.print (OriginalVectorIs binary_decoded))
  else if sum_error_syndrome =? 1 then Py.print SumIsOneOnDecode
  else
    (bitflip_pos <- locate error_syndrome ;;
     Py.print (BitWasFlipped bitflip_pos) ;;;
     v <- Np.getitem (bitflip_pos - 1) ;;
     (if v =? 0 then Np.setitem (bitflip_pos - 1) 1
      else Np.setitem (bitflip_pos - 1) 0) ;;;
     codeword <- Py.load ;;
     Py.print (CorrectedCodewordIs codeword) ;;;
     binary_decoded <- matmul_mod2 R ;;
     Py.print (OriginalVectorIs binary_decoded)).

End Hamming.

(** ** Vocabulary of the properties *)

(** A vector of [n] bits: what [check_input(x, n)] accepts. *)
Definition bitvector (n : nat) (x : list Z) : Prop :=
  length x = n ∧ Forall (fun a => a = 0 ∨ a = 1) x.

#[global] Instance bitvector_dec n x : Decision (bitvector n x).
Proof. unfold bitvector. apply _. Defined.

Fixpoint all_bitvectors (n : nat) : list (list Z) :=
  match n with
  | O => [[]]
  | S n' => flat_map (fun x => [0 :: x; 1 :: x]) (all_bitvectors n')
  end.

(** [M · x mod 2] *)
Definition mul_mod2 (M : list (list Z)) (x : list Z) : list Z :=
  Np.mod2 (map (fun row => Np.dot row x) M).

Definition syndrome (c : list Z) : list Z := mul_mod2 Hamming.H c.

Definition weight (s : list Z) : Z := Np.sum s.

(** The column of [H] at the 1-based position [p]. *)
Definition column (p : Z) : option (list Z) :=
  if 1 <=? p then Np.transpose Hamming.H !! Z.to_nat (p - 1) else None.

(** The bit at the 0-based position [j] inverted, the others kept. *)
Definition flip_bit (j : nat) (x : list Z) : list Z :=
  alter (fun v => 1 - v) j x.

(** A call on the array [x], with nothing printed yet. *)
Definition call {A} (rng : nat -> Z) (f : Py A) (x : list Z) : result A * world :=
  f (World x [] rng 0).

Definition value {A} (r : result A * world) : result A := fst r.
Definition array {A} (r : result A * world) : list Z := mem (snd r).
Definition printed {A} (r : result A * world) : list line := out (snd r).

(** The outcome of decoding, read off what [decoder] prints: the message
    of the branch taken is the status, the vector of line 226 or 246 the
    recovered message. *)
Inductive ErrorStatus : Type :=
| NoError
| Corrected (position : Z)
| Uncorrectable.

Definition status_of_line (l : line) : option ErrorStatus :=
  match l with
  | NoBitflipError => Some NoError
  | SumIsOneOnDecode => Some Uncorrectable
  | BitWasFlipped bitflip_pos => Some (Corrected bitflip_pos)
  | _ => None
  end.

Definition message_of_line (l : line) : option (list Z) :=
  match l with
  | OriginalVectorIs binary_decoded => Some binary_decoded
  | _ => None
  end.

Definition status (printed : list line) : option ErrorStatus :=
  head (omap status_of_line printed).

Definition recovered_message (printed : list line) : option (list Z) :=
  head (omap message_of_line printed).

(** The loop of [bitflip_rand], one iteration at a time. *)

(** The position drawn next and the world after one iteration. *)
Definition next_draw (w : world) : Z := rng w (drawn w) `mod` 7.

Definition flipped_after (flipped_bits : gset Z) (w : world) : gset Z :=
  if decide (next_draw w ∈ flipped_bits) then flipped_bits
  else {[next_draw w]} ∪ flipped_bits.

Definition world_after (flipped_bits : gset Z) (w : world) : world :=
  World (if decide (next_draw w ∈ flipped_bits) then mem w
         else flip_bit (Z.to_nat (next_draw w)) (mem w))
        (out w) (rng w) (S (drawn w)).

(** [c] with the bits at the subscripts of [positions] inverted. *)
Definition flips (positions : gset Z) (c : list Z) : list Z :=
  imap (fun j v => if decide (Z.of_nat j ∈ positions) then 1 - v else v) c.

(** The number of positions at which two arrays of equal length differ. *)
Definition distance (x y : list Z) : nat :=
  sum_list (zip_with (fun a b => if decide (a = b) then 0%nat else 1%nat) x y).

(** Addition over GF(2), position by position. *)
Definition xor_bits (x y : list Z) : list Z :=
  zip_with (fun a b => (a + b) `mod` 2) x y.

(** ** Element types

    The dtype of a one-dimensional array argument: the integer types of
    numpy and [float64].  Only the values of an integer array are ever
    read; of a [float64] array the tests of [check_input] see the size and
    the dtype, and every other non-integer dtype is refused as [float64]
    is. *)
Inductive dtype : Set :=
| int8 | int16 | int32 | int64
| uint8 | uint16 | uint32 | uint64
| float64.

(** [np.issubdtype(dt, np.integer)], line 65. *)
Definition is_integer_dtype (dt : dtype) : bool :=
  match dt with
  | float64 => false
  | _ => true
  end.

(** The dtype of [np.matmul(M, x) % 2] for one of the matrices [G], [H],
    [R], which are [int64], and a vector [x] of dtype [dt]: the common type
    of [int64] and [dt].  No integer type holds both [int64] and [uint64],
    for which numpy takes [float64]. *)
Definition matmul_dtype (dt : dtype) : dtype :=
  match dt with
  | uint64 | float64 => float64
  | _ => int64
  end.

(** ** The literal forms [check_input] accepts

    Lines 37-58 of [check_input] turn the argument into an array before
    the tests of lines 61-72 are made.  A value is
    - an [int] (not a [bool]), a [bool], a [str] whose characters are code
      points below 256, or a [list] of [int]s;
    - the one-dimensional array of the world, of the dtype given, which
      line 54 leaves alone;
    - or a value of any other type.
    For the first four a new array is built and becomes the array of the
    world. *)

Module Literal.

Import Ascii String.

Inductive value : Type :=
| Int (n : Z)
| Bool (b : bool)
| Str (s : string)
| List (l : list Z)
| Array (dt : dtype)
| Other.

(** [str(x)] of an [int] and of a [bool].  Recent Python versions refuse
    to convert integers of more than 4300 digits (a [ValueError]); the
    properties below do not depend on what happens beyond that limit. *)
Definition str_of_int (n : Z) : string :=
  DecimalString.NilZero.string_of_int (Z.to_int n).

Definition str_of_bool (b : bool) : string :=
  if b then "True"%string else "False"%string.

Definition code_point (c : ascii) : Z := Z.of_N (N_of_ascii c).

(** [int(digit)] of one character: among the code points below 256 only
    '0'..'9' are decimal digits. *)
Definition int_of_char (c : ascii) : result Z :=
  let n := code_point c in
  if (48 <=? n) && (n <=? 57) then Ok (n - 48) else Raise ValueError.

(** [[int(digit) for digit in s]] *)
Fixpoint digits (s : string) : result (list Z) :=
  match s with
  | EmptyString => Ok []
  | String c s' =>
      match int_of_char c with
      | Ok d =>
          match digits s' with
          | Ok ds => Ok (d :: ds)
          | Raise e => Raise e
          | OutOfFuel => OutOfFuel
          end
      | Raise e => Raise e
      | OutOfFuel => OutOfFuel
      end
  end.

(** [x.replace(" ", "")] *)
Fixpoint remove_spaces (s : string) : string :=
  match s with
  | EmptyString => EmptyString
  | String c s' =>
      if code_point c =? 32 then remove_spaces s'
      else String c (remove_spaces s')
  end.

(** [x.isdigit()]: a non-empty string of digit characters; below 256 these
    are '0'..'9' and the superscripts two, three and one (178, 179, 185). *)
Definition isdigit_char (c : ascii) : bool :=
  let n := code_point c in
  ((48 <=? n) && (n <=? 57)) || (n =? 178) || (n =? 179) || (n =? 185).

Fixpoint all_chars (p : ascii -> bool) (s : string) : bool :=
  match s with
  | EmptyString => true
  | String c s' => p c && all_chars p s'
  end.

Definition isdigit (s : string) : bool :=
  match s with
  | EmptyString => false
  | String _ _ => all_chars isdigit_char s
  end.

(** Whether [np.array(l).dtype] is an integer type, for a list of [int]s:
    it is [int64] when every element fits in 64 signed bits, [uint64] when
    every element lies in 0..2^64-1; the empty list gives [float64], and
    any other list [float64] or [object]. *)
Definition array_dtype_is_integer (l : list Z) : bool :=
  match l with
  | [] => false
  | _ :: _ =>
      forallb (fun a => (- 2 ^ 63 <=? a) && (a <? 2 ^ 63)) l
      || forallb (fun a => (0 <=? a) && (a <? 2 ^ 64)) l
  end.

(** Lines 42-58: the array the argument becomes, and whether its dtype is
    an integer type. *)
Definition to_array (x : value) : Py bool :=
  match x with
  | Int n =>
      ds <- Py.lift (digits (str_of_int n)) ;;
      Py.store ds ;;;
      Py.ret (array_dtype_is_integer ds)
  | Bool b =>
      ds <- Py.lift (digits (str_of_bool b)) ;;
      Py.store ds ;;;
      Py.ret (array_dtype_is_integer ds)
  | Str s =>
      let s := remove_spaces s in
      if negb (isdigit s) then Py.raise ValueError
      else
        (ds <- Py.lift (digits s) ;;
         Py.store ds ;;;
         Py.ret (array_dtype_is_integer ds))
  | List l =>
      Py.store l ;;;
      Py.ret (array_dtype_is_integer l)
  | Array dt => Py.ret (is_integer_dtype dt)
  | Other => Py.raise TypeError
  end.

(** [check_input(x, input_length)], lines 37-72. *)
Definition check_input (x : value) (input_length : Z) : Py unit :=
  match x with
  | Other => Py.raise TypeError
  | _ =>
      is_integer <- to_array x ;;
      x <- Py.load ;;
      if negb (Np.size x =? input_length) then Py.raise ValueError
      else if negb is_integer then Py.raise ValueError
      else if negb (forallb (fun a => (a =? 0) || (a =? 1)) x) then Py.raise ValueError
      else Py.ret tt
  end.

(** The decimal number whose digits are given, most significant first. *)
Definition decimal (digits : list Z) : Z :=
  fold_left (fun acc d => 10 * acc + d) digits 0.


End Literal.

(** [Support.create_random_vector], lines 10-19:
    [np.random.randint(0, 2, size=4)] makes a new integer array of four
    draws of 0..1, the upper end 2 being excluded. *)
Definition create_random_vector : Py (list Z) :=
  a <- Py.randint 0 (2 - 1) ;;
  b <- Py.randint 0 (2 - 1) ;;
  c <- Py.randint 0 (2 - 1) ;;
  d <- Py.randint 0 (2 - 1) ;;
  Py.ret [a; b; c; d].

(** ** The codec on every form of argument

    [encoder], [decoder] and [bitflip_specific] with the whole of
    [check_input] in front.  An array is returned with its dtype: the one
    [check_input] handed back ([int64] for the array made from an [int], a
    [str] or a [list] that passes the tests), or the one of the matrix
    product.  Printed vectors are given by their values; numpy prints the
    values of a [float64] vector with a point after each. *)

Module Full.

(** The dtype of the array [check_input] hands back. *)
Definition dtype_of (x : Literal.value) : dtype :=
  match x with
  | Literal.Array dt => dt
  | _ => int64
  end.

Definition encoder (input : Literal.value) : Py (dtype * list Z) :=
  Literal.check_input input 4 ;;;
  codeword <- Hamming.matmul_mod2 Hamming.G ;;
  Py.print (CodewordIs codeword) ;;;
  Py.ret (matmul_dtype (dtype_of input), codeword).

Definition decoder (codeword : Literal.value) : Py unit :=
  Literal.check_input codeword 7 ;;;
  error_syndrome <- Hamming.matmul_mod2 Hamming.H ;;
  let sum_error_syndrome := Np.sum error_syndrome in
  if sum_error_syndrome =? 0 then
    (Py.print NoBitflipError ;;;
     binary_decoded <- Hamming.matmul_mod2 Hamming.R ;;
     Py.print (OriginalVectorIs binary_decoded))
  else if sum_error_syndrome =? 1 then Py.print SumIsOneOnDecode
  else
    (bitflip_pos <- Hamming.locate error_syndrome ;;
     Py.print (BitWasFlipped bitflip_pos) ;;;
     v <- Np.getitem (bitflip_pos - 1) ;;
     (if v =? 0 then Np.setitem (bitflip_pos - 1) 1
      else Np.setitem (bitflip_pos - 1) 0) ;;;
     codeword <- Py.load ;;
     Py.print (CorrectedCodewordIs codeword) ;;;
     binary_decoded <- Hamming.matmul_mod2 Hamming.R ;;
     Py.print (OriginalVectorIs binary_decoded)).

Definition bitflip_specific (x : Literal.value) (bit_to_flip : Z) : Py (dtype * list Z) :=
  Literal.check_input x 7 ;;;
  (if bit_to_flip >? 6 then Py.raise ValueError
   else
     (v <- Np.getitem bit_to_flip ;;
      Np.setitem bit_to_flip (1 - v))) ;;;
  a <- Py.load ;;
  Py.ret (dtype_of x, a).

End Full.

(** The digits of a decimal numeral, most significant first. *)
Fixpoint uint_digits (u : Decimal.uint) : list Z :=
  match u with
  | Decimal.Nil => []
  | Decimal.D0 u' => 0 :: uint_digits u'
  | Decimal.D1 u' => 1 :: uint_digits u'
  | Decimal.D2 u' => 2 :: uint_digits u'
  | Decimal.D3 u' => 3 :: uint_digits u'
  | Decimal.D4 u' => 4 :: uint_digits u'
  | Decimal.D5 u' => 5 :: uint_digits u'
  | Decimal.D6 u' => 6 :: uint_digits u'
  | Decimal.D7 u' => 7 :: uint_digits u'
  | Decimal.D8 u' => 8 :: uint_digits u'
  | Decimal.D9 u' => 9 :: uint_digits u'
  end.

(** The numeral written with the given bits. *)
Fixpoint uint_of_bits (a : list Z) : Decimal.uint :=
  match a with
  | [] => Decimal.Nil
  | b :: a' => if b =? 0 then Decimal.D0 (uint_of_bits a') else Decimal.D1 (uint_of_bits a')
  end.

(** ** Bit vectors are finitely many *)

Lemma bitvector_enum n x : bitvector n x -> x ∈ all_bitvectors n.
Proof.
  intros [Hlen Hbits]. revert n Hlen.
  induction Hbits as [|a x Ha _ IH]; intros n Hlen; simpl in Hlen; subst n.
  - simpl. left.
  - simpl. apply list_elem_of_In, in_flat_map. exists x. split.
    + apply list_elem_of_In, IH. reflexivity.
    + destruct Ha as [-> | ->]; simpl; auto.
Qed.

Lemma all_bitvectors_bitvector n x : x ∈ all_bitvectors n -> bitvector n x.
Proof.
  revert x. induction n as [|n IH]; intros x Hx; simpl in Hx.
  - apply list_elem_of_singleton in Hx as ->. split; [reflexivity | constructor].
  - apply list_elem_of_In, in_flat_map in Hx as (y & Hy & Hx).
    apply list_elem_of_In, IH in Hy as [Hlen Hbits].
    destruct Hx as [<- | [<- | []]]; (split; [simpl; congruence | constructor; auto]).
Qed.

(** A property of all vectors of [n] bits is checked on the list of them. *)
Lemma bitvector_forall n (P : list Z -> Prop) :
  Forall P (all_bitvectors n) -> forall x, bitvector n x -> P x.
Proof.
  intros HP x Hx. apply (proj1 (Forall_forall P _) HP), bitvector_enum, Hx.
Qed.

Ltac each_bitvector :=
  lazymatch goal with
  | |- forall x, bitvector ?n x -> @?P x =>
      apply (bitvector_forall n P);
      let l := eval vm_compute in (all_bitvectors n) in
      change (all_bitvectors n) with l;
      repeat apply List.Forall_cons; [.. | apply List.Forall_nil]; cbv beta
  end.

(** ** Linear algebra of the three matrices *)

(** Every codeword has the zero syndrome: [H · G = 0] over GF(2). *)
Lemma syndrome_of_codeword m :
  bitvector 4 m -> syndrome (mul_mod2 Hamming.G m) = [0; 0; 0].
Proof.
  revert m. each_bitvector; vm_compute; reflexivity.
Qed.

(** [R] undoes [G]. *)
Lemma R_of_codeword m :
  bitvector 4 m -> mul_mod2 Hamming.R (mul_mod2 Hamming.G m) = m.
Proof.
  revert m. each_bitvector; vm_compute; reflexivity.
Qed.

Lemma codeword_bitvector m :
  bitvector 4 m -> bitvector 7 (mul_mod2 Hamming.G m).
Proof.
  revert m. each_bitvector; compute_done.
Qed.

(** A vector in the kernel of [H] is the codeword of its projection. *)
Lemma kernel_is_codeword c :
  bitvector 7 c -> syndrome c = [0; 0; 0] ->
  bitvector 4 (mul_mod2 Hamming.R c) ∧ c = mul_mod2 Hamming.G (mul_mod2 Hamming.R c).
Proof.
  revert c. each_bitvector;
    (intros Hs; vm_compute in Hs; first [discriminate Hs | split; [compute_done | vm_compute; reflexivity]]).
Qed.

(** ** Running the monad *)

Lemma bind_ok {A B} (m : Py A) (k : A -> Py B) w a w' :
  m w = (Ok a, w') -> Py.bind m k w = k a w'.
Proof. intros Hm. unfold Py.bind. rewrite Hm. reflexivity. Qed.

Lemma bind_raise {A B} (m : Py A) (k : A -> Py B) w e w' :
  m w = (Raise e, w') -> Py.bind m k w = (Raise e, w').
Proof. intros Hm. unfold Py.bind. rewrite Hm. reflexivity. Qed.

Lemma bind_out_of_fuel {A B} (m : Py A) (k : A -> Py B) w w' :
  m w = (OutOfFuel, w') -> Py.bind m k w = (OutOfFuel, w').
Proof. intros Hm. unfold Py.bind. rewrite Hm. reflexivity. Qed.

Lemma forallb_bits x :
  forallb (fun a => (a =? 0) || (a =? 1)) x = true <->
  Forall (fun a => a = 0 ∨ a = 1) x.
Proof.
  rewrite forallb_forall, Forall_forall. split; intros Hx a Ha.
  - apply list_elem_of_In, Hx, orb_true_iff in Ha. lia.
  - apply orb_true_iff. apply list_elem_of_In, Hx in Ha. lia.
Qed.

(** [check_input] lets a vector of [k] bits through and touches nothing. *)
Lemma check_input_ok k w :
  0 <= k -> bitvector (Z.to_nat k) (mem w) ->
  Support.check_input k w = (Ok tt, w).
Proof.
  intros Hk [Hlen Hbits]. unfold Support.check_input, Py.bind, Py.load, Np.size.
  rewrite Hlen, Z2Nat.id, Z.eqb_refl by assumption. simpl.
  apply forallb_bits in Hbits. rewrite Hbits. reflexivity.
Qed.

(** Whatever it is given, [check_input] returns nothing or raises a
    [ValueError], and leaves the world as it was. *)
Lemma check_input_cases k w :
  Support.check_input k w = (Ok tt, w) ∧ bitvector (Z.to_nat k) (mem w) ∧ 0 <= k
  ∨ Support.check_input k w = (Raise ValueError, w).
Proof.
  unfold Support.check_input, Py.bind, Py.load, Np.size. simpl.
  destruct (Z.eqb_spec (Z.of_nat (length (mem w))) k) as [Hk | Hk]; simpl; [| by right].
  destruct (forallb _ (mem w)) eqn:Hbits; simpl; [| by right].
  left. split; [reflexivity |]. split; [| lia].
  split; [lia | by apply forallb_bits].
Qed.

Lemma matmul_mod2_ok M w :
  Forall (fun row => length row = length (mem w)) M ->
  Hamming.matmul_mod2 M w = (Ok (mul_mod2 M (mem w)), w).
Proof.
  intros HM. unfold Hamming.matmul_mod2, Py.bind, Py.load, Py.lift, Np.matmul.
  replace (forallb _ M) with true; [reflexivity |].
  symmetry. apply forallb_forall. intros row Hrow.
  apply Nat.eqb_eq. apply list_elem_of_In in Hrow.
  exact (proj1 (Forall_forall _ _) HM row Hrow).
Qed.

Lemma subscript_nonneg n i :
  0 <= i < Z.of_nat n -> Np.subscript n i = Ok (Z.to_nat i).
Proof.
  intros Hi. unfold Np.subscript.
  replace ((0 <=? i) && (i <? Z.of_nat n)) with true by lia. reflexivity.
Qed.

Lemma subscript_negative n i :
  - Z.of_nat n <= i < 0 -> Np.subscript n i = Ok (Z.to_nat (Z.of_nat n + i)).
Proof.
  intros Hi. unfold Np.subscript.
  replace ((0 <=? i) && (i <? Z.of_nat n)) with false by lia.
  replace ((- Z.of_nat n <=? i) && (i <? 0)) with true by lia. reflexivity.
Qed.

Lemma getitem_ok w i j v :
  Np.subscript (length (mem w)) i = Ok j -> mem w !! j = Some v ->
  Np.getitem i w = (Ok v, w).
Proof.
  intros Hj Hv. unfold Np.getitem, Py.bind, Py.load, Py.lift.
  rewrite Hj, Hv. reflexivity.
Qed.

Lemma setitem_ok w i j v :
  Np.subscript (length (mem w)) i = Ok j ->
  Np.setitem i v w = (Ok tt, World (<[j := v]> (mem w)) (out w) (rng w) (drawn w)).
Proof.
  intros Hj. unfold Np.setitem, Py.bind, Py.load, Py.lift, Py.store.
  rewrite Hj. reflexivity.
Qed.

Lemma insert_flip_bit (x : list Z) j v :
  x !! j = Some v -> <[j := 1 - v]> x = flip_bit j x.
Proof.
  revert j. induction x as [|a x IH]; intros [|j] Hv; simpl in *; try discriminate.
  - injection Hv as ->. reflexivity.
  - unfold flip_bit in *. simpl. f_equal. apply IH, Hv.
Qed.

(** [x[i] = 1 - x[i]] inverts the bit under the subscript. *)
Lemma invert_item_ok w i j :
  Np.subscript (length (mem w)) i = Ok j -> (j < length (mem w))%nat ->
  (v <- Np.getitem i ;; Np.setitem i (1 - v)) w =
  (Ok tt, World (flip_bit j (mem w)) (out w) (rng w) (drawn w)).
Proof.
  intros Hj Hlt. destruct (lookup_lt_is_Some_2 _ _ Hlt) as [v Hv].
  rewrite (bind_ok _ _ _ _ _ (getitem_ok w i j v Hj Hv)).
  rewrite (setitem_ok w i j _ Hj), (insert_flip_bit _ _ _ Hv). reflexivity.
Qed.

Lemma subscript_lt n i j : Np.subscript n i = Ok j -> (j < n)%nat.
Proof.
  unfold Np.subscript.
  destruct ((0 <=? i) && (i <? Z.of_nat n)) eqn:H1;
    [| destruct ((- Z.of_nat n <=? i) && (i <? 0)) eqn:H2];
    intros Hj; inversion Hj; subst; lia.
Qed.

(** The correction of lines 240-243 inverts a bit as well. *)
Lemma correct_item_ok w n i j :
  bitvector n (mem w) -> Np.subscript (length (mem w)) i = Ok j ->
  (v <- Np.getitem i ;;
   (if v =? 0 then Np.setitem i 1 else Np.setitem i 0)) w =
  (Ok tt, World (flip_bit j (mem w)) (out w) (rng w) (drawn w)).
Proof.
  intros [_ Hbits] Hj. pose proof (subscript_lt _ _ _ Hj) as Hlt.
  destruct (lookup_lt_is_Some_2 _ _ Hlt) as [v Hv].
  rewrite (bind_ok _ _ _ _ _ (getitem_ok w i j v Hj Hv)).
  assert (v = 0 ∨ v = 1) as Hbit.
  { apply (proj1 (Forall_forall _ _) Hbits), list_elem_of_lookup. eauto. }
  rewrite <- (insert_flip_bit _ _ _ Hv).
  destruct Hbit as [-> | ->]; simpl; apply setitem_ok, Hj.
Qed.

(** ** [list.index] *)

Lemma index_Ok l v i :
  Np.index l v = Ok i ->
  0 <= i < Z.of_nat (length l) ∧ l !! Z.to_nat i = Some v ∧
  forall j, (j < Z.to_nat i)%nat -> l !! j ≠ Some v.
Proof.
  revert i. induction l as [|a l IH]; intros i; simpl; [discriminate |].
  destruct (decide (a = v)) as [-> | Hne].
  - intros [= <-]. simpl. repeat split; [lia.. |]. intros j Hj. lia.
  - destruct (Np.index l v) as [i' | |]; try discriminate.
    intros [= <-]. destruct (IH i' eq_refl) as (Hi' & Hv & Hfirst).
    replace (Z.to_nat (i' + 1)) with (S (Z.to_nat i')) by lia.
    repeat split; [lia | lia | exact Hv |].
    intros [|j] Hj; simpl; [congruence | apply Hfirst; lia].
Qed.

Lemma index_elem l v : v ∈ l -> exists i, Np.index l v = Ok i.
Proof.
  induction 1 as [v l | v a l _ [i Hi]]; simpl.
  - rewrite decide_True by reflexivity. eauto.
  - destruct (decide (a = v)); [eauto |]. rewrite Hi. eauto.
Qed.

(** In a list without repetition the index of an element is its position. *)
Lemma index_lookup l v j :
  NoDup l -> l !! j = Some v -> Np.index l v = Ok (Z.of_nat j).
Proof.
  intros Hnd Hj. destruct (index_elem l v) as [i Hi].
  { apply list_elem_of_lookup. eauto. }
  destruct (index_Ok _ _ _ Hi) as (Hrange & Hv & _).
  rewrite Hi. f_equal.
  pose proof (NoDup_lookup _ _ _ _ Hnd Hv Hj). lia.
Qed.

(** ** The columns of [H] *)

Lemma H_columns :
  Np.transpose Hamming.H =
  [[1; 0; 0]; [0; 1; 0]; [1; 1; 0]; [0; 0; 1]; [1; 0; 1]; [0; 1; 1]; [1; 1; 1]].
Proof. reflexivity. Qed.

Lemma H_columns_NoDup : NoDup (Np.transpose Hamming.H).
Proof. rewrite H_columns. compute_done. Qed.

(** The columns are the seven non-zero vectors of three bits. *)
Lemma H_columns_cover s :
  s ∈ Np.transpose Hamming.H <-> bitvector 3 s ∧ s ≠ [0; 0; 0].
Proof.
  split.
  - rewrite H_columns. intros Hs.
    repeat (apply elem_of_cons in Hs as [-> | Hs]);
      [split; [compute_done | discriminate] .. | by apply elem_of_nil in Hs].
  - intros [Hs Hnz]. revert s Hs Hnz. each_bitvector; intros Hnz;
      first [congruence | rewrite H_columns; compute_done].
Qed.

Lemma column_lookup p s :
  column p = Some s <-> 1 <= p <= 7 ∧ Np.transpose Hamming.H !! Z.to_nat (p - 1) = Some s.
Proof.
  unfold column. destruct (Z.leb_spec 1 p) as [Hp | Hp].
  - split; [| tauto]. intros Hs. split; [| exact Hs].
    apply lookup_lt_Some in Hs. rewrite H_columns in Hs. simpl in Hs. lia.
  - split; [discriminate | lia].
Qed.

(** ** Syndromes *)

Lemma mul_mod2_bitvector M x : bitvector (length M) (mul_mod2 M x).
Proof.
  unfold mul_mod2, Np.mod2. split.
  - rewrite !length_map. reflexivity.
  - apply Forall_forall. intros a Ha.
    apply list_elem_of_fmap in Ha as (b & -> & _).
    pose proof (Z.mod_pos_bound b 2). lia.
Qed.

Lemma syndrome_bitvector c : bitvector 3 (syndrome c).
Proof. apply (mul_mod2_bitvector Hamming.H). Qed.

Lemma weight_range s :
  bitvector 3 s -> 0 <= weight s <= 3 ∧ (weight s = 0 <-> s = [0; 0; 0]).
Proof.
  revert s. each_bitvector; vm_compute; (split; [split; discriminate | split; congruence]).
Qed.

(** The search of lines 231-236 finds the column of a non-zero syndrome. *)
Lemma locate_syndrome c :
  weight (syndrome c) ≠ 0 ->
  exists i, Np.index (Np.transpose Hamming.H) (syndrome c) = Ok i ∧
            0 <= i < 7 ∧ column (i + 1) = Some (syndrome c).
Proof.
  intros Hw. pose proof (syndrome_bitvector c) as Hs.
  destruct (index_elem (Np.transpose Hamming.H) (syndrome c)) as [i Hi].
  { apply H_columns_cover. split; [exact Hs |].
    intros Hz. apply Hw, (weight_range _ Hs), Hz. }
  exists i. split; [exact Hi |].
  destruct (index_Ok _ _ _ Hi) as (Hrange & Hv & _).
  rewrite H_columns in Hrange at 1. simpl in Hrange.
  split; [lia |]. apply column_lookup. split; [lia |].
  replace (i + 1 - 1) with i by lia. exact Hv.
Qed.

(** ** The three branches of [decoder] *)

Lemma rows_of_H (x : list Z) :
  length x = 7%nat -> Forall (fun row => length row = length x) Hamming.H.
Proof. intros ->. repeat constructor. Qed.

Lemma rows_of_R (x : list Z) :
  length x = 7%nat -> Forall (fun row => length row = length x) Hamming.R.
Proof. intros ->. repeat constructor. Qed.

Lemma rows_of_G (x : list Z) :
  length x = 4%nat -> Forall (fun row => length row = length x) Hamming.G.
Proof. intros ->. repeat constructor. Qed.

Lemma flip_bit_bitvector n j x : bitvector n x -> bitvector n (flip_bit j x).
Proof.
  intros [Hlen Hbits]. unfold flip_bit. split.
  - rewrite length_alter. exact Hlen.
  - apply Forall_alter; [exact Hbits |]. intros a _ Ha. lia.
Qed.

Lemma bind_assoc {A B C} (m : Py A) (k : A -> Py B) (h : B -> Py C) w :
  Py.bind (Py.bind m k) h w = Py.bind m (fun a => Py.bind (k a) h) w.
Proof. unfold Py.bind. destruct (m w) as [[a | e |] w']; reflexivity. Qed.

Section Runs.

Context (g : nat -> Z).

Lemma decoder_no_error c :
  bitvector 7 c -> weight (syndrome c) = 0 ->
  call g Hamming.decoder c =
  (Ok tt,
   World c [NoBitflipError; OriginalVectorIs (mul_mod2 Hamming.R c)] g 0).
Proof.
  intros Hc Hw. unfold call, Hamming.decoder.
  erewrite bind_ok; [| apply check_input_ok; [lia | exact Hc]].
  erewrite bind_ok; [| apply matmul_mod2_ok, rows_of_H, Hc].
  cbn [mem]. fold (syndrome c). fold (weight (syndrome c)). rewrite Hw.
  cbn [Z.eqb]. unfold Py.print at 1.
  erewrite bind_ok; [| reflexivity].
  erewrite bind_ok; [| apply matmul_mod2_ok, rows_of_R, Hc].
  reflexivity.
Qed.

Lemma decoder_uncorrectable c :
  bitvector 7 c -> weight (syndrome c) = 1 ->
  call g Hamming.decoder c = (Ok tt, World c [SumIsOneOnDecode] g 0).
Proof.
  intros Hc Hw. unfold call, Hamming.decoder.
  erewrite bind_ok; [| apply check_input_ok; [lia | exact Hc]].
  erewrite bind_ok; [| apply matmul_mod2_ok, rows_of_H, Hc].
  cbn [mem]. fold (syndrome c). fold (weight (syndrome c)). rewrite Hw.
  reflexivity.
Qed.

Lemma decoder_corrected c i :
  bitvector 7 c -> weight (syndrome c) ≠ 0 -> weight (syndrome c) ≠ 1 ->
  Np.index (Np.transpose Hamming.H) (syndrome c) = Ok i ->
  let c' := flip_bit (Z.to_nat i) c in
  call g Hamming.decoder c =
  (Ok tt,
   World c'
     [BitWasFlipped (i + 1); CorrectedCodewordIs c';
      OriginalVectorIs (mul_mod2 Hamming.R c')] g 0).
Proof.
  intros Hc Hw0 Hw1 Hi c'. unfold call, Hamming.decoder.
  erewrite bind_ok; [| apply check_input_ok; [lia | exact Hc]].
  erewrite bind_ok; [| apply matmul_mod2_ok, rows_of_H, Hc].
  cbn [mem]. fold (syndrome c). fold (weight (syndrome c)).
  destruct (Z.eqb_spec (weight (syndrome c)) 0) as [? | _]; [contradiction |].
  destruct (Z.eqb_spec (weight (syndrome c)) 1) as [? | _]; [contradiction |].
  destruct (index_Ok _ _ _ Hi) as (Hrange & _ & _).
  rewrite H_columns in Hrange at 1. simpl in Hrange.
  erewrite bind_ok;
    [| unfold Hamming.locate, Py.lift; erewrite bind_ok; [| rewrite Hi]; reflexivity].
  erewrite bind_ok; [| reflexivity].
  replace (i + 1 - 1) with i by lia.
  rewrite <- bind_assoc.
  erewrite bind_ok;
    [| apply (correct_item_ok _ 7 i (Z.to_nat i));
       [exact Hc | apply subscript_nonneg; cbn [mem]; rewrite (proj1 Hc); simpl; lia]].
  simpl. fold c'.
  erewrite bind_ok; [| reflexivity].
  erewrite bind_ok; [| reflexivity].
  erewrite bind_ok;
    [| apply matmul_mod2_ok, rows_of_R; apply (flip_bit_bitvector 7), Hc].
  reflexivity.
Qed.

Lemma encoder_run m :
  bitvector 4 m ->
  call g Hamming.encoder m =
  (Ok (mul_mod2 Hamming.G m), World m [CodewordIs (mul_mod2 Hamming.G m)] g 0).
Proof.
  intros Hm. unfold call, Hamming.encoder.
  erewrite bind_ok; [| apply check_input_ok; [lia | exact Hm]].
  erewrite bind_ok; [| apply matmul_mod2_ok, rows_of_G, Hm].
  reflexivity.
Qed.

Lemma parity_check_located c i :
  bitvector 7 c -> weight (syndrome c) ≠ 0 -> weight (syndrome c) ≠ 1 ->
  Np.index (Np.transpose Hamming.H) (syndrome c) = Ok i ->
  call g Hamming.parity_check c =
  (Ok tt, World c [ErrorVectorIs (syndrome c); BitflipOccurredAt (i + 1)] g 0).
Proof.
  intros Hc Hw0 Hw1 Hi. unfold call, Hamming.parity_check.
  erewrite bind_ok; [| apply check_input_ok; [lia | exact Hc]].
  erewrite bind_ok; [| apply matmul_mod2_ok, rows_of_H, Hc].
  cbn [mem]. fold (syndrome c).
  erewrite bind_ok; [| reflexivity].
  fold (weight (syndrome c)).
  destruct (Z.eqb_spec (weight (syndrome c)) 0) as [? | _]; [contradiction |].
  destruct (Z.eqb_spec (weight (syndrome c)) 1) as [? | _]; [contradiction |].
  erewrite bind_ok;
    [| unfold Hamming.locate, Py.lift; erewrite bind_ok; [| rewrite Hi]; reflexivity].
  reflexivity.
Qed.

(** ** The fault injectors *)

Lemma bitflip_specific_rejects c bit_to_flip :
  bit_to_flip > 6 ->
  call g (Support.bitflip_specific bit_to_flip) c = (Raise ValueError, World c [] g 0).
Proof.
  intros Hi. unfold call, Support.bitflip_specific.
  destruct (check_input_cases 7 (World c [] g 0)) as [(Hok & _) | Hraise].
  - erewrite bind_ok; [| exact Hok].
    replace (bit_to_flip >? 6) with true by lia. reflexivity.
  - erewrite bind_raise; [| exact Hraise]. reflexivity.
Qed.

Lemma bitflip_specific_flips c bit_to_flip j :
  bitvector 7 c -> bit_to_flip <= 6 -> Np.subscript 7 bit_to_flip = Ok j ->
  call g (Support.bitflip_specific bit_to_flip) c =
  (Ok (flip_bit j c), World (flip_bit j c) [] g 0).
Proof.
  intros Hc Hi Hj. unfold call, Support.bitflip_specific.
  erewrite bind_ok; [| apply check_input_ok; [lia | exact Hc]].
  replace (bit_to_flip >? 6) with false by lia.
  erewrite bind_ok;
    [| apply (invert_item_ok _ _ j); cbn [mem]; rewrite (proj1 Hc);
       [exact Hj | apply (subscript_lt _ _ _ Hj)]].
  reflexivity.
Qed.

Lemma bitflip_rand_rejects c fuel number_of_bits_to_flip :
  number_of_bits_to_flip > 2 ->
  call g (Support.bitflip_rand fuel number_of_bits_to_flip) c =
  (Raise ValueError, World c [] g 0).
Proof.
  intros Hk. unfold call, Support.bitflip_rand.
  destruct (check_input_cases 7 (World c [] g 0)) as [(Hok & _) | Hraise].
  - erewrite bind_ok; [| exact Hok].
    replace (number_of_bits_to_flip >? 2) with true by lia. reflexivity.
  - erewrite bind_raise; [| exact Hraise]. reflexivity.
Qed.

End Runs.

Lemma flip_bit_twice j (x : list Z) : flip_bit j (flip_bit j x) = x.
Proof.
  unfold flip_bit. rewrite list_alter_alter_eq. apply list_alter_id.
  intros a. simpl. lia.
Qed.

(** ** Flipping a bit moves the syndrome by a column of [H] *)

Lemma flip_located_bit c i :
  bitvector 7 c ->
  Np.index (Np.transpose Hamming.H) (syndrome c) = Ok i ->
  syndrome (flip_bit (Z.to_nat i) c) = [0; 0; 0].
Proof.
  intros Hc. revert i. revert c Hc.
  each_bitvector; intros i Hi; vm_compute in Hi;
    first [discriminate Hi | injection Hi as <-; vm_compute; reflexivity].
Qed.

Lemma syndrome_of_flipped_codeword m j :
  bitvector 4 m -> (j < 7)%nat ->
  Np.transpose Hamming.H !! j = Some (syndrome (flip_bit j (mul_mod2 Hamming.G m))).
Proof.
  intros Hm Hj. revert j Hj. revert m Hm.
  each_bitvector; intros j Hj;
    do 7 (destruct j as [|j]; [vm_compute; reflexivity |]); lia.
Qed.

(** ** The loop of [bitflip_rand] *)

Lemma invert_item_ret {B} (b : B) w i j :
  Np.subscript (length (mem w)) i = Ok j -> (j < length (mem w))%nat ->
  (v <- Np.getitem i ;; Np.setitem i (1 - v) ;;; Py.ret b) w =
  (Ok b, World (flip_bit j (mem w)) (out w) (rng w) (drawn w)).
Proof.
  intros Hj Hlt. destruct (lookup_lt_is_Some_2 _ _ Hlt) as [v Hv].
  rewrite (bind_ok _ _ _ _ _ (getitem_ok w i j v Hj Hv)).
  rewrite (bind_ok _ _ _ _ _ (setitem_ok w i j _ Hj)).
  rewrite (insert_flip_bit _ _ _ Hv). reflexivity.
Qed.

Lemma next_draw_range w : 0 <= next_draw w < 7.
Proof. apply Z.mod_pos_bound. lia. Qed.

Lemma flip_loop_step fuel k flipped_bits w :
  length (mem w) = 7%nat ->
  Support.flip_loop (S fuel) k flipped_bits w =
  if Z.of_nat (size (flipped_after flipped_bits w)) =? k
  then (Ok tt, world_after flipped_bits w)
  else Support.flip_loop fuel k (flipped_after flipped_bits w) (world_after flipped_bits w).
Proof.
  intros Hlen. pose proof (next_draw_range w) as Hi.
  cbn [Support.flip_loop].
  erewrite bind_ok; [| reflexivity].
  change (0 + rng w (drawn w) `mod` (6 - 0 + 1)) with (next_draw w).
  unfold flipped_after, world_after.
  destruct (decide (next_draw w ∈ flipped_bits)) as [Hin | Hin].
  - erewrite bind_ok; [| reflexivity].
    destruct (_ =? k); reflexivity.
  - erewrite bind_ok;
      [| apply (invert_item_ret _ _ _ (Z.to_nat (next_draw w))); cbn [mem];
         rewrite Hlen; [apply subscript_nonneg |]; lia].
    destruct (_ =? k); reflexivity.
Qed.

Lemma world_after_length flipped_bits w :
  length (mem (world_after flipped_bits w)) = length (mem w).
Proof.
  unfold world_after. cbn [mem]. destruct (decide _); [reflexivity |].
  apply length_alter.
Qed.

Lemma flipped_after_nonempty flipped_bits w :
  size (flipped_after flipped_bits w) ≠ 0%nat.
Proof.
  apply size_non_empty_iff, (non_empty_inhabited (next_draw w)).
  unfold flipped_after. destruct (decide _); set_solver.
Qed.

(** Asked for no flip, the loop never reaches its exit: the set already
    holds a position when its size is first compared with [0]. *)
Lemma flip_loop_zero fuel flipped_bits w :
  length (mem w) = 7%nat ->
  fst (Support.flip_loop fuel 0 flipped_bits w) = OutOfFuel.
Proof.
  revert flipped_bits w. induction fuel as [|fuel IH]; intros flipped_bits w Hlen.
  - reflexivity.
  - rewrite flip_loop_step by exact Hlen.
    pose proof (flipped_after_nonempty flipped_bits w).
    destruct (Z.eqb_spec (Z.of_nat (size (flipped_after flipped_bits w))) 0); [lia |].
    apply IH. rewrite world_after_length. exact Hlen.
Qed.

Lemma flips_empty c : flips ∅ c = c.
Proof.
  apply list_eq. intros j. unfold flips. rewrite list_lookup_imap.
  destruct (c !! j); reflexivity.
Qed.

Lemma flips_length positions c : length (flips positions c) = length c.
Proof. apply length_imap. Qed.

Lemma flip_bit_flips positions c i :
  0 <= i -> i ∉ positions ->
  flip_bit (Z.to_nat i) (flips positions c) = flips ({[i]} ∪ positions) c.
Proof.
  intros Hi Hfresh. apply list_eq. intros j. unfold flip_bit, flips.
  destruct (decide (Z.to_nat i = j)) as [<- | Hne].
  - rewrite list_lookup_alter_eq, !list_lookup_imap.
    destruct (c !! Z.to_nat i) as [v |]; [simpl | reflexivity].
    rewrite Z2Nat.id by exact Hi.
    rewrite decide_False by exact Hfresh.
    rewrite decide_True by set_solver. reflexivity.
  - rewrite list_lookup_alter_ne by exact Hne. rewrite !list_lookup_imap.
    destruct (c !! j) as [v |]; [simpl | reflexivity].
    destruct (decide (Z.of_nat j ∈ positions)) as [Hin | Hout].
    + rewrite decide_True by set_solver. reflexivity.
    + rewrite decide_False; [reflexivity |].
      intros [Heq%elem_of_singleton | Hin]%elem_of_union; [lia | contradiction].
Qed.

(** When the loop is left, [flipped_bits] holds as many positions as were
    asked for and exactly the bits at these positions are inverted. *)
Lemma flip_loop_returns c k fuel flipped_bits w w' :
  length c = 7%nat -> mem w = flips flipped_bits c ->
  (forall i, i ∈ flipped_bits -> 0 <= i < 7) ->
  Support.flip_loop fuel k flipped_bits w = (Ok tt, w') ->
  exists positions : gset Z,
    Z.of_nat (size positions) = k ∧
    (forall i, i ∈ positions -> 0 <= i < 7) ∧
    mem w' = flips positions c ∧ out w' = out w.
Proof.
  intros Hlen. revert flipped_bits w.
  induction fuel as [|fuel IH]; intros flipped_bits w Hmem Hrange Hrun.
  - discriminate Hrun.
  - rewrite flip_loop_step in Hrun by (rewrite Hmem, flips_length; exact Hlen).
    pose proof (next_draw_range w) as Hi.
    assert (mem (world_after flipped_bits w) = flips (flipped_after flipped_bits w) c
            ∧ forall i, i ∈ flipped_after flipped_bits w -> 0 <= i < 7) as [Hmem' Hrange'].
    { unfold world_after, flipped_after. cbn [mem].
      destruct (decide (next_draw w ∈ flipped_bits)) as [Hin | Hout].
      - split; assumption.
      - split.
        + rewrite Hmem. apply flip_bit_flips; [lia | exact Hout].
        + intros i [->%elem_of_singleton | Hin]%elem_of_union; [lia | auto]. }
    destruct (Z.eqb_spec (Z.of_nat (size (flipped_after flipped_bits w))) k) as [Hk | Hk].
    + injection Hrun as <-. exists (flipped_after flipped_bits w).
      repeat split; try assumption; apply Hrange'; assumption.
    + destruct (IH _ _ Hmem' Hrange' Hrun) as (positions & Hsize & Hpos & Hw' & Hout).
      exists positions. repeat split; try assumption; apply Hpos; assumption.
Qed.

(** Whenever [bitflip_rand] returns, it returns the array, and the array
    is the argument with the bits inverted at as many distinct positions
    of 0..6 as were asked for. *)
Lemma bitflip_rand_returns g c fuel k x :
  bitvector 7 c ->
  value (call g (Support.bitflip_rand fuel k) c) = Ok x ->
  exists positions : gset Z,
    Z.of_nat (size positions) = k ∧
    (forall i, i ∈ positions -> 0 <= i < 7) ∧
    x = flips positions c ∧
    array (call g (Support.bitflip_rand fuel k) c) = x.
Proof.
  intros Hc. unfold call, Support.bitflip_rand.
  erewrite bind_ok; [| apply check_input_ok; [lia | exact Hc]].
  destruct (k >? 2).
  - erewrite bind_raise; [| reflexivity]. discriminate.
  - destruct (Support.flip_loop fuel k ∅ (World c [] g 0)) as [[[] | e |] w'] eqn:Hrun.
    + erewrite bind_ok; [| exact Hrun]. intros [= <-].
      destruct (flip_loop_returns c k fuel ∅ (World c [] g 0) w' (proj1 Hc)
                  (eq_sym (flips_empty c)) ltac:(set_solver) Hrun)
        as (positions & Hsize & Hpos & Hw' & _).
      exists positions. repeat split; try assumption; apply Hpos; assumption.
    + erewrite bind_raise; [| exact Hrun]. discriminate.
    + erewrite bind_out_of_fuel; [| exact Hrun]. discriminate.
Qed.

(** Asked for one flip, the loop is left after its first iteration. *)
Lemma bitflip_rand_one g c fuel :
  bitvector 7 c ->
  value (call g (Support.bitflip_rand (S fuel) 1) c) =
  Ok (flip_bit (Z.to_nat (g 0%nat `mod` 7)) c).
Proof.
  intros Hc. unfold call, Support.bitflip_rand.
  erewrite bind_ok; [| apply check_input_ok; [lia | exact Hc]].
  change (1 >? 2) with false. cbv iota.
  erewrite bind_ok;
    [| rewrite flip_loop_step by exact (proj1 Hc);
       unfold flipped_after, world_after, next_draw; cbn [mem rng drawn out];
       rewrite decide_False by set_solver;
       rewrite union_empty_r_L, size_singleton; reflexivity].
  reflexivity.
Qed.

(** Asked for two flips, the loop is left at the first draw that differs
    from the first one. *)
Lemma flip_loop_second a fuel w n :
  length (mem w) = 7%nat -> (n < fuel)%nat ->
  rng w (drawn w + n)%nat `mod` 7 ≠ a ->
  exists w', Support.flip_loop fuel 2 {[a]} w = (Ok tt, w').
Proof.
  revert w n. induction fuel as [|fuel IH]; intros w n Hlen Hn Hdiff; [lia |].
  rewrite flip_loop_step by exact Hlen.
  unfold flipped_after.
  destruct (decide (next_draw w ∈ ({[a]} : gset Z))) as [Hin | Hout].
  - rewrite size_singleton. change (Z.of_nat 1 =? 2) with false. cbv iota.
    apply elem_of_singleton in Hin.
    destruct n as [|n]; [rewrite Nat.add_0_r in Hdiff; contradiction |].
    apply (IH _ n).
    + rewrite world_after_length. exact Hlen.
    + lia.
    + unfold world_after. cbn [rng drawn].
      replace (S (drawn w) + n)%nat with (drawn w + S n)%nat by lia. exact Hdiff.
  - rewrite size_union, !size_singleton by set_solver.
    change (Z.of_nat (1 + 1) =? 2) with true. cbv iota. eauto.
Qed.

Lemma bitflip_rand_two g c fuel n :
  bitvector 7 c -> (n < S fuel)%nat -> g n `mod` 7 ≠ g 0%nat `mod` 7 ->
  exists x, value (call g (Support.bitflip_rand (S fuel) 2) c) = Ok x.
Proof.
  intros Hc Hn Hdiff. unfold call, Support.bitflip_rand.
  erewrite bind_ok; [| apply check_input_ok; [lia | exact Hc]].
  change (2 >? 2) with false. cbv iota.
  destruct n as [|n]; [contradiction |].
  destruct (flip_loop_second (g 0%nat `mod` 7) fuel (world_after ∅ (World c [] g 0)) n)
    as [w' Hrun].
  { rewrite world_after_length. exact (proj1 Hc). }
  { lia. }
  { exact Hdiff. }
  erewrite bind_ok;
    [| rewrite flip_loop_step by exact (proj1 Hc);
       unfold flipped_after, next_draw; cbn [rng drawn];
       rewrite decide_False by set_solver;
       rewrite !union_empty_r_L, size_singleton;
       change (Z.of_nat 1 =? 2) with false; cbv iota; exact Hrun].
  eexists. reflexivity.
Qed.

(** ** Arrays of other dtypes *)

Lemma bind_same {A B} (m m' : Py A) (k : A -> Py B) w :
  m w = m' w -> Py.bind m k w = Py.bind m' k w.
Proof. intros Hm. unfold Py.bind. rewrite Hm. reflexivity. Qed.

(** On an array of an integer dtype the whole of [check_input] is the two
    tests of [Support.check_input]; an array of another dtype is refused. *)
Lemma check_input_integer_array dt k w :
  is_integer_dtype dt = true ->
  Literal.check_input (Literal.Array dt) k w = Support.check_input k w.
Proof.
  intros Hdt. unfold Literal.check_input, Literal.to_array, Support.check_input.
  rewrite Hdt. unfold Py.bind, Py.ret, Py.load.
  destruct (Np.size (mem w) =? k); reflexivity.
Qed.

Lemma check_input_other_array dt k w :
  is_integer_dtype dt = false ->
  Literal.check_input (Literal.Array dt) k w = (Raise ValueError, w).
Proof.
  intros Hdt. unfold Literal.check_input, Literal.to_array.
  rewrite Hdt. unfold Py.bind, Py.ret, Py.load.
  destruct (Np.size (mem w) =? k); reflexivity.
Qed.

Lemma full_decoder_integer_array dt w :
  is_integer_dtype dt = true ->
  Full.decoder (Literal.Array dt) w = Hamming.decoder w.
Proof.
  intros Hdt. unfold Full.decoder, Hamming.decoder.
  apply bind_same, check_input_integer_array, Hdt.
Qed.

Section FullRuns.

Context (g : nat -> Z).

Lemma full_encoder_run dt m :
  is_integer_dtype dt = true -> bitvector 4 m ->
  call g (Full.encoder (Literal.Array dt)) m =
  (Ok (matmul_dtype dt, mul_mod2 Hamming.G m),
   World m [CodewordIs (mul_mod2 Hamming.G m)] g 0).
Proof.
  intros Hdt Hm. unfold call, Full.encoder.
  erewrite bind_ok;
    [| rewrite check_input_integer_array by exact Hdt;
       apply check_input_ok; [lia | exact Hm]].
  erewrite bind_ok; [| apply matmul_mod2_ok, rows_of_G, Hm].
  reflexivity.
Qed.

Lemma full_bitflip_specific_flips dt c bit_to_flip j :
  is_integer_dtype dt = true -> bitvector 7 c ->
  bit_to_flip <= 6 -> Np.subscript 7 bit_to_flip = Ok j ->
  call g (Full.bitflip_specific (Literal.Array dt) bit_to_flip) c =
  (Ok (dt, flip_bit j c), World (flip_bit j c) [] g 0).
Proof.
  intros Hdt Hc Hi Hj. unfold call, Full.bitflip_specific.
  erewrite bind_ok;
    [| rewrite check_input_integer_array by exact Hdt;
       apply check_input_ok; [lia | exact Hc]].
  replace (bit_to_flip >? 6) with false by lia.
  erewrite bind_ok;
    [| apply (invert_item_ok _ _ j); cbn [mem]; rewrite (proj1 Hc);
       [exact Hj | apply (subscript_lt _ _ _ Hj)]].
  reflexivity.
Qed.

(** An array that is not of an integer dtype is refused by each of the
    three, before anything is printed or changed. *)
Lemma full_refuses_other_dtype dt c :
  is_integer_dtype dt = false ->
  call g (Full.encoder (Literal.Array dt)) c = (Raise ValueError, World c [] g 0) ∧
  call g (Full.decoder (Literal.Array dt)) c = (Raise ValueError, World c [] g 0) ∧
  forall bit_to_flip,
    call g (Full.bitflip_specific (Literal.Array dt) bit_to_flip) c
    = (Raise ValueError, World c [] g 0).
Proof.
  intros Hdt.
  pose proof (check_input_other_array dt 4 (World c [] g 0) Hdt) as H4.
  pose proof (check_input_other_array dt 7 (World c [] g 0) Hdt) as H7.
  repeat split; intros;
    unfold call, Full.encoder, Full.decoder, Full.bitflip_specific;
    (erewrite bind_raise; [reflexivity | first [exact H4 | exact H7]]).
Qed.

(** The round trip on a message held in an array of the default integer
    dtype. *)
Lemma roundtrip_default_dtype m :
  bitvector 4 m ->
  exists c,
    value (call g Hamming.encoder m) = Ok c ∧
    let r := call g Hamming.decoder c in
    value r = Ok tt ∧
    status (printed r) = Some NoError ∧
    recovered_message (printed r) = Some m.
Proof.
  intros Hm. exists (mul_mod2 Hamming.G m).
  rewrite (encoder_run g m Hm). split; [reflexivity |].
  rewrite decoder_no_error.
  - rewrite (R_of_codeword m Hm). repeat split.
  - apply codeword_bitvector, Hm.
  - rewrite (syndrome_of_codeword m Hm). reflexivity.
Qed.

Lemma matmul_dtype_integer dt :
  is_integer_dtype dt = true -> dt ≠ uint64 -> matmul_dtype dt = int64.
Proof. destruct dt; intros Hdt Hne; try reflexivity; [contradiction | discriminate]. Qed.

(** The round trip holds for a message held in an array of any integer
    dtype but [uint64]: the codeword is then an [int64] array. *)
Lemma roundtrip_on_integer_arrays dt m :
  is_integer_dtype dt = true -> dt ≠ uint64 -> bitvector 4 m ->
  exists c,
    value (call g (Full.encoder (Literal.Array dt)) m) = Ok (int64, c) ∧
    let r := call g (Full.decoder (Literal.Array int64)) c in
    value r = Ok tt ∧
    status (printed r) = Some NoError ∧
    recovered_message (printed r) = Some m.
Proof.
  intros Hdt Hne Hm.
  destruct (roundtrip_default_dtype m Hm) as (c & Henc & Hdec).
  rewrite (encoder_run g m Hm) in Henc. injection Henc as <-.
  exists (mul_mod2 Hamming.G m).
  rewrite (full_encoder_run dt m Hdt Hm), (matmul_dtype_integer dt Hdt Hne).
  split; [reflexivity |].
  unfold call. rewrite full_decoder_integer_array by reflexivity. exact Hdec.
Qed.

(** Single-error correction on a message held in an array of the default
    integer dtype. *)
Lemma single_error_default_dtype m p :
  bitvector 4 m -> 1 <= p <= 7 ->
  exists c c',
    value (call g Hamming.encoder m) = Ok c ∧
    value (call g (Support.bitflip_specific (p - 1)) c) = Ok c' ∧
    let r := call g Hamming.decoder c' in
    value r = Ok tt ∧
    (weight (syndrome c') = 1 <-> p = 1 ∨ p = 2 ∨ p = 4) ∧
    (weight (syndrome c') = 1 ->
       status (printed r) = Some Uncorrectable ∧
       recovered_message (printed r) = None) ∧
    (weight (syndrome c') ≠ 1 ->
       status (printed r) = Some (Corrected p) ∧
       recovered_message (printed r) = Some m).
Proof.
  intros Hm Hp.
  set (c := mul_mod2 Hamming.G m). set (j := Z.to_nat (p - 1)).
  pose proof (codeword_bitvector m Hm) as Hc. fold c in Hc.
  assert (Np.subscript 7 (p - 1) = Ok j) as Hj by (apply subscript_nonneg; lia).
  assert (bitvector 7 (flip_bit j c)) as Hc' by apply flip_bit_bitvector, Hc.
  assert (Np.transpose Hamming.H !! j = Some (syndrome (flip_bit j c))) as Hcol
    by (apply syndrome_of_flipped_codeword; [exact Hm | lia]).
  exists c, (flip_bit j c).
  rewrite (encoder_run g m Hm). split; [reflexivity |].
  rewrite (bitflip_specific_flips g c (p - 1) j Hc ltac:(lia) Hj).
  split; [reflexivity |].
  assert (weight (syndrome (flip_bit j c)) = 1 <-> p = 1 ∨ p = 2 ∨ p = 4) as Hone.
  { clear - Hcol Hp. revert Hcol. generalize (syndrome (flip_bit j c)) as s.
    intros s Hcol. subst j. rewrite H_columns in Hcol.
    assert (p = 1 ∨ p = 2 ∨ p = 3 ∨ p = 4 ∨ p = 5 ∨ p = 6 ∨ p = 7) as Hcases by lia.
    destruct Hcases as [-> | [-> | [-> | [-> | [-> | [-> | ->]]]]]];
      vm_compute in Hcol; injection Hcol as <-; vm_compute; intuition congruence. }
  cbv zeta.
  destruct (decide (weight (syndrome (flip_bit j c)) = 1)) as [Hw | Hw].
  - rewrite (decoder_uncorrectable g _ Hc' Hw).
    split; [reflexivity |]. split; [exact Hone |].
    split; [intros _; split; reflexivity | intros; contradiction].
  - assert (weight (syndrome (flip_bit j c)) ≠ 0) as Hw0.
    { intros Hz. apply (weight_range _ (syndrome_bitvector _)) in Hz.
      assert (syndrome (flip_bit j c) ∈ Np.transpose Hamming.H) as Hin
        by (apply list_elem_of_lookup; eauto).
      apply H_columns_cover in Hin. tauto. }
    pose proof (index_lookup _ _ _ H_columns_NoDup Hcol) as Hi.
    rewrite (decoder_corrected g _ _ Hc' Hw0 Hw Hi).
    rewrite Nat2Z.id, flip_bit_twice.
    replace (Z.of_nat j + 1) with p by lia.
    rewrite (R_of_codeword m Hm : mul_mod2 Hamming.R c = m).
    split; [reflexivity |]. split; [exact Hone |].
    split; [intros; contradiction | intros _; split; reflexivity].
Qed.

(** Single-error correction holds for a message held in an array of any
    integer dtype but [uint64]. *)
Lemma single_error_on_integer_arrays dt m p :
  is_integer_dtype dt = true -> dt ≠ uint64 -> bitvector 4 m -> 1 <= p <= 7 ->
  exists c c',
    value (call g (Full.encoder (Literal.Array dt)) m) = Ok (int64, c) ∧
    value (call g (Full.bitflip_specific (Literal.Array int64) (p - 1)) c)
    = Ok (int64, c') ∧
    let r := call g (Full.decoder (Literal.Array int64)) c' in
    value r = Ok tt ∧
    (weight (syndrome c') = 1 <-> p = 1 ∨ p = 2 ∨ p = 4) ∧
    (weight (syndrome c') = 1 ->
       status (printed r) = Some Uncorrectable ∧
       recovered_message (printed r) = None) ∧
    (weight (syndrome c') ≠ 1 ->
       status (printed r) = Some (Corrected p) ∧
       recovered_message (printed r) = Some m).
Proof.
  intros Hdt Hne Hm Hp.
  destruct (single_error_default_dtype m p Hm Hp) as (c & c' & Henc & Hflip & Hdec).
  rewrite (encoder_run g m Hm) in Henc. injection Henc as <-.
  pose proof (codeword_bitvector m Hm) as Hc.
  rewrite (bitflip_specific_flips g _ (p - 1) (Z.to_nat (p - 1)) Hc ltac:(lia)
             (subscript_nonneg 7 (p - 1) ltac:(lia))) in Hflip.
  injection Hflip as <-.
  exists (mul_mod2 Hamming.G m), (flip_bit (Z.to_nat (p - 1)) (mul_mod2 Hamming.G m)).
  rewrite (full_encoder_run dt m Hdt Hm), (matmul_dtype_integer dt Hdt Hne).
  split; [reflexivity |].
  rewrite (full_bitflip_specific_flips int64 _ (p - 1) (Z.to_nat (p - 1)) eq_refl Hc
             ltac:(lia) (subscript_nonneg 7 (p - 1) ltac:(lia))).
  split; [reflexivity |].
  unfold call. rewrite full_decoder_integer_array by reflexivity. exact Hdec.
Qed.

End FullRuns.

(** * The properties *)

(** C1, at a message held in a [uint64] array.  For every message [m] of
    four bits, [encoder] accepts the [uint64] array holding [m] and returns
    its codeword as a [float64] array, the common type of [int64] and
    [uint64]; [decoder] refuses that array at the dtype test of line 65
    with [ValueError], having printed nothing: there is no status and no
    message. *)
Theorem roundtrip_breaks_on_uint64 g m :
  bitvector 4 m ->
  exists c,
    value (call g (Full.encoder (Literal.Array uint64)) m) = Ok (float64, c) ∧
    c = mul_mod2 Hamming.G m ∧
    call g (Full.decoder (Literal.Array float64)) c
    = (Raise ValueError, World c [] g 0).
Proof.
  intros Hm. exists (mul_mod2 Hamming.G m).
  rewrite (full_encoder_run g uint64 m eq_refl Hm).
  split; [reflexivity |]. split; [reflexivity |].
  apply (full_refuses_other_dtype g float64 _ eq_refl).
Qed.

Lemma roundtrip_breaks_on_uint64_witness :
  exists c,
    value (call (fun _ => 0) (Full.encoder (Literal.Array uint64)) [1; 0; 1; 0])
    = Ok (float64, c) ∧
    c = mul_mod2 Hamming.G [1; 0; 1; 0] ∧
    call (fun _ => 0) (Full.decoder (Literal.Array float64)) c
    = (Raise ValueError, World c [] (fun _ => 0) 0).
Proof.
  apply (roundtrip_breaks_on_uint64 (fun _ => 0) [1; 0; 1; 0]). compute_done.
Defined.

(** C2, at a message held in a [uint64] array.  For every message [m] of
    four bits and every position [p] of 1..7, the codeword [encoder]
    returns for the [uint64] array holding [m] is a [float64] array, which
    [bitflip_specific(codeword, p - 1)] refuses with [ValueError] before
    any bit is inverted, as [decoder] does: no flip is made and nothing is
    decoded. *)
Theorem single_error_breaks_on_uint64 g m p :
  bitvector 4 m -> 1 <= p <= 7 ->
  exists c,
    value (call g (Full.encoder (Literal.Array uint64)) m) = Ok (float64, c) ∧
    c = mul_mod2 Hamming.G m ∧
    call g (Full.bitflip_specific (Literal.Array float64) (p - 1)) c
    = (Raise ValueError, World c [] g 0) ∧
    call g (Full.decoder (Literal.Array float64)) c
    = (Raise ValueError, World c [] g 0).
Proof.
  intros Hm _. exists (mul_mod2 Hamming.G m).
  rewrite (full_encoder_run g uint64 m eq_refl Hm).
  split; [reflexivity |]. split; [reflexivity |].
  destruct (full_refuses_other_dtype g float64 (mul_mod2 Hamming.G m) eq_refl)
    as (_ & Hdec & Hflip).
  split; [apply Hflip | exact Hdec].
Qed.

Lemma single_error_breaks_on_uint64_witness :
  exists c,
    value (call (fun _ => 0) (Full.encoder (Literal.Array uint64)) [1; 0; 1; 0])
    = Ok (float64, c) ∧
    c = mul_mod2 Hamming.G [1; 0; 1; 0] ∧
    call (fun _ => 0) (Full.bitflip_specific (Literal.Array float64) (3 - 1)) c
    = (Raise ValueError, World c [] (fun _ => 0) 0) ∧
    call (fun _ => 0) (Full.decoder (Literal.Array float64)) c
    = (Raise ValueError, World c [] (fun _ => 0) 0).
Proof.
  apply (single_error_breaks_on_uint64 (fun _ => 0) [1; 0; 1; 0] 3);
    [compute_done | lia].
Defined.

(** C3: the three transitions of the corrector.  For every vector [c] of
    seven bits with syndrome [s], the decoder raises nothing and
    - if [s] has weight 0 it reports no error and leaves [c] as it is;
    - if [s] has weight 1 it reports the error as uncorrectable and leaves
      [c] as it is;
    - if [s] has weight 2 or 3 there is a position [p] of 1..7, the only
      one whose column of [H] is [s], such that the decoder reports the
      flip at [p] and the array is [c] with the bit at [p] (subscript
      [p - 1]) inverted and the other bits kept. *)
Theorem decoder_transitions g c :
  bitvector 7 c ->
  let s := syndrome c in
  let r := call g Hamming.decoder c in
  value r = Ok tt ∧
  (weight s = 0 -> status (printed r) = Some NoError ∧ array r = c) ∧
  (weight s = 1 -> status (printed r) = Some Uncorrectable ∧ array r = c) ∧
  (weight s = 2 ∨ weight s = 3 ->
     exists p,
       1 <= p <= 7 ∧ column p = Some s ∧
       (forall q, column q = Some s -> q = p) ∧
       status (printed r) = Some (Corrected p) ∧
       array r = flip_bit (Z.to_nat (p - 1)) c).
Proof.
  intros Hc s r. subst s r.
  destruct (decide (weight (syndrome c) = 0)) as [Hw0 | Hw0];
    [| destruct (decide (weight (syndrome c) = 1)) as [Hw1 | Hw1]].
  - rewrite (decoder_no_error g c Hc Hw0).
    repeat split; intros; lia.
  - rewrite (decoder_uncorrectable g c Hc Hw1).
    repeat split; intros; lia.
  - destruct (locate_syndrome c Hw0) as (i & Hi & Hrange & Hcol).
    rewrite (decoder_corrected g c i Hc Hw0 Hw1 Hi).
    split; [reflexivity |]. split; [intros; contradiction |].
    split; [intros; contradiction |]. intros _.
    exists (i + 1). split; [lia |]. split; [exact Hcol |].
    split; [| split; [reflexivity | cbn; f_equal; f_equal; lia]].
    intros q Hq. apply column_lookup in Hq as [Hq Hlq].
    apply column_lookup in Hcol as [_ Hli].
    pose proof (NoDup_lookup _ _ _ _ H_columns_NoDup Hlq Hli). lia.
Qed.

Lemma decoder_transitions_witness :
  let c := [1; 0; 0; 1; 0; 1; 0] in
  let s := syndrome c in
  let r := call (fun _ => 0) Hamming.decoder c in
  value r = Ok tt ∧
  (weight s = 0 -> status (printed r) = Some NoError ∧ array r = c) ∧
  (weight s = 1 -> status (printed r) = Some Uncorrectable ∧ array r = c) ∧
  (weight s = 2 ∨ weight s = 3 ->
     exists p,
       1 <= p <= 7 ∧ column p = Some s ∧
       (forall q, column q = Some s -> q = p) ∧
       status (printed r) = Some (Corrected p) ∧
       array r = flip_bit (Z.to_nat (p - 1)) c).
Proof.
  apply (decoder_transitions (fun _ => 0) [1; 0; 0; 1; 0; 1; 0]). compute_done.
Defined.




(** C5: the column search cannot fail.  The seven columns of [H] are
    pairwise distinct and are exactly the non-zero vectors of three bits;
    hence for every vector [c] of seven bits whose syndrome has weight at
    least 2, [list.index] finds the syndrome among the columns, at a
    subscript of 0..6, and neither [parity_check] nor [decoder] raises. *)
Theorem column_search_succeeds g c :
  bitvector 7 c -> weight (syndrome c) >= 2 ->
  NoDup (Np.transpose Hamming.H) ∧
  length (Np.transpose Hamming.H) = 7%nat ∧
  (forall v, v ∈ Np.transpose Hamming.H <-> bitvector 3 v ∧ v ≠ [0; 0; 0]) ∧
  (exists i, Np.index (Np.transpose Hamming.H) (syndrome c) = Ok i ∧ 0 <= i < 7) ∧
  value (call g Hamming.parity_check c) = Ok tt ∧
  value (call g Hamming.decoder c) = Ok tt.
Proof.
  intros Hc Hw.
  split; [exact H_columns_NoDup |]. split; [reflexivity |].
  split; [exact H_columns_cover |].
  destruct (locate_syndrome c ltac:(lia)) as (i & Hi & Hrange & _).
  split; [eauto |].
  rewrite (parity_check_located g c i Hc ltac:(lia) ltac:(lia) Hi).
  rewrite (decoder_corrected g c i Hc ltac:(lia) ltac:(lia) Hi).
  split; reflexivity.
Qed.

Lemma column_search_succeeds_witness :
  let c := [1; 0; 0; 1; 0; 1; 0] in
  NoDup (Np.transpose Hamming.H) ∧
  length (Np.transpose Hamming.H) = 7%nat ∧
  (forall v, v ∈ Np.transpose Hamming.H <-> bitvector 3 v ∧ v ≠ [0; 0; 0]) ∧
  (exists i, Np.index (Np.transpose Hamming.H) (syndrome c) = Ok i ∧ 0 <= i < 7) ∧
  value (call (fun _ => 0) Hamming.parity_check c) = Ok tt ∧
  value (call (fun _ => 0) Hamming.decoder c) = Ok tt.
Proof.
  apply (column_search_succeeds (fun _ => 0) [1; 0; 0; 1; 0; 1; 0]);
    [compute_done | vm_compute; discriminate].
Defined.

(** C6: a vector of seven bits has the zero syndrome exactly when it is
    the codeword [G · m mod 2] of some four-bit message [m]. *)
Theorem syndrome_zero_iff_codeword c :
  bitvector 7 c ->
  (syndrome c = [0; 0; 0] <-> exists m, bitvector 4 m ∧ c = mul_mod2 Hamming.G m).
Proof.
  intros Hc. split.
  - intros Hs. exists (mul_mod2 Hamming.R c). apply kernel_is_codeword; assumption.
  - intros (m & Hm & ->). apply syndrome_of_codeword, Hm.
Qed.

Lemma syndrome_zero_iff_codeword_witness :
  syndrome [1; 0; 1; 1; 0; 1; 0] = [0; 0; 0] <->
  exists m, bitvector 4 m ∧ [1; 0; 1; 1; 0; 1; 0] = mul_mod2 Hamming.G m.
Proof.
  apply (syndrome_zero_iff_codeword [1; 0; 1; 1; 0; 1; 0]).
  compute_done.
Defined.

(** C7: the injectors refuse at the boundary.  For every vector [c] of
    seven bits, [bitflip_rand] asked for more than two flips and
    [bitflip_specific] given an index above 6 raise [ValueError], and the
    array is then exactly [c]: no bit has been inverted. *)
Theorem injectors_reject_without_flipping g c :
  bitvector 7 c ->
  (forall fuel number_of_bits_to_flip,
     number_of_bits_to_flip > 2 ->
     let r := call g (Support.bitflip_rand fuel number_of_bits_to_flip) c in
     value r = Raise ValueError ∧ array r = c) ∧
  (forall bit_to_flip,
     bit_to_flip > 6 ->
     let r := call g (Support.bitflip_specific bit_to_flip) c in
     value r = Raise ValueError ∧ array r = c).
Proof.
  intros _. split.
  - intros fuel k Hk. cbv zeta. rewrite (bitflip_rand_rejects g c fuel k Hk).
    split; reflexivity.
  - intros i Hi. cbv zeta. rewrite (bitflip_specific_rejects g c i Hi).
    split; reflexivity.
Qed.

Lemma injectors_reject_without_flipping_witness :
  let c := [1; 0; 1; 0; 1; 0; 1] in
  (forall fuel number_of_bits_to_flip,
     number_of_bits_to_flip > 2 ->
     let r := call (fun _ => 0) (Support.bitflip_rand fuel number_of_bits_to_flip) c in
     value r = Raise ValueError ∧ array r = c) ∧
  (forall bit_to_flip,
     bit_to_flip > 6 ->
     let r := call (fun _ => 0) (Support.bitflip_specific bit_to_flip) c in
     value r = Raise ValueError ∧ array r = c).
Proof.
  apply (injectors_reject_without_flipping (fun _ => 0) [1; 0; 1; 0; 1; 0; 1]).
  compute_done.
Defined.

(** C8, at the flip count 0: for every vector [c] of seven bits, every
    entropy stream and every bound on the number of iterations followed,
    [bitflip_rand(c, 0)] has not returned: the loop compares the size of
    [flipped_bits] with 0 only after a position has been added to it. *)
Theorem bitflip_rand_zero_never_returns g c fuel :
  bitvector 7 c ->
  value (call g (Support.bitflip_rand fuel 0) c) = OutOfFuel.
Proof.
  intros Hc. unfold call, Support.bitflip_rand.
  erewrite bind_ok; [| apply check_input_ok; [lia | exact Hc]].
  change (0 >? 2) with false. cbv iota.
  pose proof (flip_loop_zero fuel ∅ (World c [] g 0) (proj1 Hc)) as Hloop.
  destruct (Support.flip_loop fuel 0 ∅ (World c [] g 0)) as [v w'] eqn:Hrun.
  simpl in Hloop. subst v.
  erewrite bind_out_of_fuel; [| exact Hrun]. reflexivity.
Qed.

Lemma bitflip_rand_zero_never_returns_witness :
  value (call (fun n => Z.of_nat n) (Support.bitflip_rand 20 0) [0; 0; 0; 0; 0; 0; 0])
  = OutOfFuel.
Proof.
  apply (bitflip_rand_zero_never_returns (fun n => Z.of_nat n) [0; 0; 0; 0; 0; 0; 0] 20).
  compute_done.
Defined.

(** C9: what the decoder projects through [R] is a codeword.  For every
    vector [c] of seven bits: when the syndrome has weight 2 or 3 the
    decoder reports a correction and the array it leaves has the zero
    syndrome; and whenever the decoder gives a message, that message is
    [R · c' mod 2] for the array [c'] it leaves, [c'] has the zero syndrome
    and is the codeword of the message. *)
Theorem corrected_codeword_is_valid g c :
  bitvector 7 c ->
  let r := call g Hamming.decoder c in
  (weight (syndrome c) = 2 ∨ weight (syndrome c) = 3 ->
     (exists p, status (printed r) = Some (Corrected p)) ∧
     syndrome (array r) = [0; 0; 0]) ∧
  (forall message,
     recovered_message (printed r) = Some message ->
     message = mul_mod2 Hamming.R (array r) ∧
     syndrome (array r) = [0; 0; 0] ∧
     bitvector 4 message ∧
     array r = mul_mod2 Hamming.G message).
Proof.
  intros Hc r. subst r.
  destruct (decide (weight (syndrome c) = 0)) as [Hw0 | Hw0];
    [| destruct (decide (weight (syndrome c) = 1)) as [Hw1 | Hw1]].
  - rewrite (decoder_no_error g c Hc Hw0). split; [intros; lia |].
    intros message [= <-].
    apply (weight_range _ (syndrome_bitvector c)) in Hw0.
    destruct (kernel_is_codeword c Hc Hw0) as [Hm Hcm]. auto.
  - rewrite (decoder_uncorrectable g c Hc Hw1). split; [intros; lia |].
    intros message [=].
  - destruct (locate_syndrome c Hw0) as (i & Hi & _).
    rewrite (decoder_corrected g c i Hc Hw0 Hw1 Hi).
    pose proof (flip_located_bit c i Hc Hi) as Hz.
    split; [intros _; split; [eexists; reflexivity | exact Hz] |].
    intros message [= <-].
    destruct (kernel_is_codeword _ (flip_bit_bitvector 7 (Z.to_nat i) c Hc) Hz)
      as [Hm Hcm]. auto.
Qed.

Lemma corrected_codeword_is_valid_witness :
  let c := [1; 0; 0; 1; 0; 1; 0] in
  let r := call (fun _ => 0) Hamming.decoder c in
  (weight (syndrome c) = 2 ∨ weight (syndrome c) = 3 ->
     (exists p, status (printed r) = Some (Corrected p)) ∧
     syndrome (array r) = [0; 0; 0]) ∧
  (forall message,
     recovered_message (printed r) = Some message ->
     message = mul_mod2 Hamming.R (array r) ∧
     syndrome (array r) = [0; 0; 0] ∧
     bitvector 4 message ∧
     array r = mul_mod2 Hamming.G message).
Proof.
  apply (corrected_codeword_is_valid (fun _ => 0) [1; 0; 0; 1; 0; 1; 0]).
  compute_done.
Defined.

(** C10: a negative index counts from the end.  For every vector [c] of
    seven bits and every index [i] of -7..-1, [bitflip_specific] raises
    nothing and returns the array, which is [c] with the bit at subscript
    [7 + i] inverted and the other bits kept. *)
Theorem bitflip_specific_negative_index g c i :
  bitvector 7 c -> -7 <= i <= -1 ->
  let r := call g (Support.bitflip_specific i) c in
  value r = Ok (array r) ∧
  array r = flip_bit (Z.to_nat (7 + i)) c.
Proof.
  intros Hc Hi. cbv zeta.
  rewrite (bitflip_specific_flips g c i (Z.to_nat (7 + i)) Hc ltac:(lia)).
  - split; reflexivity.
  - apply (subscript_negative 7). lia.
Qed.

Lemma bitflip_specific_negative_index_witness :
  let r := call (fun _ => 0) (Support.bitflip_specific (-7)) [1; 0; 1; 0; 1; 0; 1] in
  value r = Ok (array r) ∧
  array r = flip_bit (Z.to_nat (7 + -7)) [1; 0; 1; 0; 1; 0; 1].
Proof.
  apply (bitflip_specific_negative_index (fun _ => 0) [1; 0; 1; 0; 1; 0; 1] (-7));
    [compute_done | lia].
Defined.

(** * Further properties of the codec *)

(** ** [parity_check] *)

Section Diagnostic.

Context (g : nat -> Z).

Lemma parity_check_no_error c :
  bitvector 7 c -> weight (syndrome c) = 0 ->
  call g Hamming.parity_check c =
  (Ok tt, World c [ErrorVectorIs (syndrome c); NoErrorOccurred] g 0).
Proof.
  intros Hc Hw. unfold call, Hamming.parity_check.
  erewrite bind_ok; [| apply check_input_ok; [lia | exact Hc]].
  erewrite bind_ok; [| apply matmul_mod2_ok, rows_of_H, Hc].
  cbn [mem]. fold (syndrome c).
  erewrite bind_ok; [| reflexivity].
  fold (weight (syndrome c)). rewrite Hw. reflexivity.
Qed.

Lemma parity_check_sum_one c :
  bitvector 7 c -> weight (syndrome c) = 1 ->
  call g Hamming.parity_check c =
  (Ok tt, World c [ErrorVectorIs (syndrome c); SumIsOneOnCheck] g 0).
Proof.
  intros Hc Hw. unfold call, Hamming.parity_check.
  erewrite bind_ok; [| apply check_input_ok; [lia | exact Hc]].
  erewrite bind_ok; [| apply matmul_mod2_ok, rows_of_H, Hc].
  cbn [mem]. fold (syndrome c).
  erewrite bind_ok; [| reflexivity].
  fold (weight (syndrome c)). rewrite Hw. reflexivity.
Qed.

End Diagnostic.

(** An array that is not a vector of [k] bits is refused by [check_input],
    whatever the state of the world. *)
Lemma check_input_refuses k w :
  0 <= k -> ~ bitvector (Z.to_nat k) (mem w) ->
  Support.check_input k w = (Raise ValueError, w).
Proof.
  intros Hk Hbad. destruct (check_input_cases k w) as [(_ & Hok & _) | Hraise];
    [contradiction | exact Hraise].
Qed.

(** X1: [parity_check] is a read-only preview of [decoder].  For every
    vector [c] of seven bits it raises nothing, leaves the array as it is,
    and prints the syndrome followed by one verdict; the verdict is the one
    [decoder] reaches on [c]: no error, not correctable, or a flip at the
    same position. *)
Theorem parity_check_previews_decoder g c :
  bitvector 7 c ->
  exists verdict,
    call g Hamming.parity_check c =
      (Ok tt, World c [ErrorVectorIs (syndrome c); verdict] g 0) ∧
    match status (printed (call g Hamming.decoder c)) with
    | Some NoError => verdict = NoErrorOccurred
    | Some Uncorrectable => verdict = SumIsOneOnCheck
    | Some (Corrected p) => verdict = BitflipOccurredAt p
    | None => False
    end.
Proof.
  intros Hc.
  destruct (decide (weight (syndrome c) = 0)) as [Hw0 | Hw0];
    [| destruct (decide (weight (syndrome c) = 1)) as [Hw1 | Hw1]].
  - exists NoErrorOccurred.
    rewrite (parity_check_no_error g c Hc Hw0), (decoder_no_error g c Hc Hw0).
    split; reflexivity.
  - exists SumIsOneOnCheck.
    rewrite (parity_check_sum_one g c Hc Hw1), (decoder_uncorrectable g c Hc Hw1).
    split; reflexivity.
  - destruct (locate_syndrome c Hw0) as (i & Hi & _).
    exists (BitflipOccurredAt (i + 1)).
    rewrite (parity_check_located g c i Hc Hw0 Hw1 Hi).
    rewrite (decoder_corrected g c i Hc Hw0 Hw1 Hi).
    split; reflexivity.
Qed.

Lemma parity_check_previews_decoder_witness :
  let c := [1; 0; 0; 1; 0; 1; 0] in
  exists verdict,
    call (fun _ => 0) Hamming.parity_check c =
      (Ok tt, World c [ErrorVectorIs (syndrome c); verdict] (fun _ => 0) 0) ∧
    match status (printed (call (fun _ => 0) Hamming.decoder c)) with
    | Some NoError => verdict = NoErrorOccurred
    | Some Uncorrectable => verdict = SumIsOneOnCheck
    | Some (Corrected p) => verdict = BitflipOccurredAt p
    | None => False
    end.
Proof.
  apply (parity_check_previews_decoder (fun _ => 0) [1; 0; 0; 1; 0; 1; 0]).
  compute_done.
Defined.

(** X2: malformed arrays are refused before anything happens.  A
    one-dimensional integer array that is not a vector of seven bits (it
    has another length, or an element other than 0 and 1) makes
    [parity_check], [decoder], [bitflip_specific] and [bitflip_rand] raise
    [ValueError], and one that is not a vector of four bits makes [encoder]
    do so; in each case nothing has been printed, no random number drawn
    and the array is untouched. *)
Theorem malformed_array_is_refused g x :
  (~ bitvector 7 x ->
     call g Hamming.parity_check x = (Raise ValueError, World x [] g 0) ∧
     call g Hamming.decoder x = (Raise ValueError, World x [] g 0) ∧
     (forall bit_to_flip,
        call g (Support.bitflip_specific bit_to_flip) x
        = (Raise ValueError, World x [] g 0)) ∧
     (forall fuel number_of_bits_to_flip,
        call g (Support.bitflip_rand fuel number_of_bits_to_flip) x
        = (Raise ValueError, World x [] g 0))) ∧
  (~ bitvector 4 x ->
     call g Hamming.encoder x = (Raise ValueError, World x [] g 0)).
Proof.
  split.
  - intros Hbad.
    pose proof (check_input_refuses 7 (World x [] g 0) ltac:(lia) Hbad) as Hraise.
    repeat split; intros;
      unfold call, Hamming.parity_check, Hamming.decoder,
        Support.bitflip_specific, Support.bitflip_rand;
      (erewrite bind_raise; [reflexivity | exact Hraise]).
  - intros Hbad.
    pose proof (check_input_refuses 4 (World x [] g 0) ltac:(lia) Hbad) as Hraise.
    unfold call, Hamming.encoder.
    erewrite bind_raise; [reflexivity | exact Hraise].
Qed.

Lemma malformed_array_is_refused_witness :
  call (fun _ => 0) Hamming.decoder [1; 0; 2; 0; 1; 0; 1]
  = (Raise ValueError, World [1; 0; 2; 0; 1; 0; 1] [] (fun _ => 0) 0) ∧
  call (fun _ => 0) Hamming.encoder [1; 0; 1]
  = (Raise ValueError, World [1; 0; 1] [] (fun _ => 0) 0).
Proof.
  split.
  - apply (proj1 (malformed_array_is_refused (fun _ => 0) [1; 0; 2; 0; 1; 0; 1])).
    compute_done.
  - apply (proj2 (malformed_array_is_refused (fun _ => 0) [1; 0; 1])).
    compute_done.
Defined.

(** ** [bitflip_specific] *)

Lemma distance_refl x : distance x x = 0%nat.
Proof.
  unfold distance. induction x as [|a x IH]; [reflexivity |].
  cbn. rewrite decide_True by reflexivity. exact IH.
Qed.

Lemma distance_flip_bit j x :
  (j < length x)%nat -> distance x (flip_bit j x) = 1%nat.
Proof.
  revert j. induction x as [|a x IH]; intros j Hj; simpl in Hj; [lia |].
  destruct j as [|j]; unfold distance, flip_bit in *; cbn.
  - rewrite decide_False by lia. f_equal. apply distance_refl.
  - rewrite decide_True by reflexivity. apply IH. lia.
Qed.

Lemma subscript_outside n i :
  i < - Z.of_nat n ∨ Z.of_nat n <= i -> Np.subscript n i = Raise IndexError.
Proof.
  intros Hi. unfold Np.subscript.
  replace ((0 <=? i) && (i <? Z.of_nat n)) with false by lia.
  replace ((- Z.of_nat n <=? i) && (i <? 0)) with false by lia. reflexivity.
Qed.

(** X3: an index below -7 is not caught by the guard of
    [bitflip_specific], which only looks for indices above 6: on a vector
    of seven bits the subscript itself fails with [IndexError], and the
    array is left as it was. *)
Theorem bitflip_specific_below_range g c bit_to_flip :
  bitvector 7 c -> bit_to_flip < -7 ->
  call g (Support.bitflip_specific bit_to_flip) c
  = (Raise IndexError, World c [] g 0).
Proof.
  intros Hc Hi. unfold call, Support.bitflip_specific.
  erewrite bind_ok; [| apply check_input_ok; [lia | exact Hc]].
  replace (bit_to_flip >? 6) with false by lia.
  erewrite bind_raise; [reflexivity |].
  erewrite bind_raise; [reflexivity |].
  unfold Np.getitem, Py.load, Py.lift.
  erewrite bind_ok; [| reflexivity]. cbn [mem].
  erewrite bind_raise; [reflexivity |].
  rewrite subscript_outside by (rewrite (proj1 Hc); lia). reflexivity.
Qed.

Lemma bitflip_specific_below_range_witness :
  call (fun _ => 0) (Support.bitflip_specific (-8)) [1; 0; 1; 0; 1; 0; 1]
  = (Raise IndexError, World [1; 0; 1; 0; 1; 0; 1] [] (fun _ => 0) 0).
Proof.
  apply (bitflip_specific_below_range (fun _ => 0) [1; 0; 1; 0; 1; 0; 1] (-8));
    [compute_done | lia].
Defined.

(** X4: with an index of -7..6, [bitflip_specific] on a vector of seven
    bits returns the array, which is again a vector of seven bits and
    differs from the argument at exactly one position; calling it again
    with the same index gives the original vector back. *)
Theorem bitflip_specific_single_flip g c bit_to_flip :
  bitvector 7 c -> -7 <= bit_to_flip <= 6 ->
  exists c',
    call g (Support.bitflip_specific bit_to_flip) c = (Ok c', World c' [] g 0) ∧
    bitvector 7 c' ∧
    distance c c' = 1%nat ∧
    call g (Support.bitflip_specific bit_to_flip) c' = (Ok c, World c [] g 0).
Proof.
  intros Hc Hi.
  assert (exists j, Np.subscript 7 bit_to_flip = Ok j) as [j Hj].
  { destruct (Z.leb_spec 0 bit_to_flip).
    - eexists. apply subscript_nonneg. lia.
    - eexists. apply subscript_negative. lia. }
  pose proof (subscript_lt _ _ _ Hj) as Hlt.
  pose proof (flip_bit_bitvector 7 j c Hc) as Hc'.
  exists (flip_bit j c).
  rewrite (bitflip_specific_flips g c bit_to_flip j Hc ltac:(lia) Hj).
  rewrite (bitflip_specific_flips g _ bit_to_flip j Hc' ltac:(lia) Hj).
  rewrite flip_bit_twice.
  repeat split; try apply Hc'.
  apply distance_flip_bit. rewrite (proj1 Hc). exact Hlt.
Qed.

Lemma bitflip_specific_single_flip_witness :
  let c := [1; 0; 1; 0; 1; 0; 1] in
  exists c',
    call (fun _ => 0) (Support.bitflip_specific (-2)) c
    = (Ok c', World c' [] (fun _ => 0) 0) ∧
    bitvector 7 c' ∧
    distance c c' = 1%nat ∧
    call (fun _ => 0) (Support.bitflip_specific (-2)) c'
    = (Ok c, World c [] (fun _ => 0) 0).
Proof.
  apply (bitflip_specific_single_flip (fun _ => 0) [1; 0; 1; 0; 1; 0; 1] (-2));
    [compute_done | lia].
Defined.

(** ** Two errors *)

Lemma below_seven j :
  (j < 7)%nat ->
  (j = 0 ∨ j = 1 ∨ j = 2 ∨ j = 3 ∨ j = 4 ∨ j = 5 ∨ j = 6)%nat.
Proof. lia. Qed.

Lemma double_flip_decoded g m j k :
  bitvector 4 m -> (j < 7)%nat -> (k < 7)%nat -> j ≠ k ->
  let r := call g Hamming.decoder (flip_bit k (flip_bit j (mul_mod2 Hamming.G m))) in
  value r = Ok tt ∧
  status (printed r) ≠ Some NoError ∧
  recovered_message (printed r) ≠ Some m ∧
  (forall position,
     status (printed r) = Some (Corrected position) ->
     position ≠ Z.of_nat j + 1 ∧ position ≠ Z.of_nat k + 1).
Proof.
  intros Hm Hj Hk Hjk. revert j k Hj Hk Hjk. revert m Hm.
  each_bitvector; intros j k Hj Hk Hjk;
    apply below_seven in Hj; apply below_seven in Hk;
    destruct Hj as [-> | [-> | [-> | [-> | [-> | [-> | ->]]]]]];
    destruct Hk as [-> | [-> | [-> | [-> | [-> | [-> | ->]]]]]];
    try (exfalso; apply Hjk; reflexivity);
    vm_compute; (split; [reflexivity |]);
    (split; [intros [=] |]); (split; [intros [=] |]);
    intros position [=]; subst; split; intros [=].
Qed.

(** X5: two errors are never decoded back to the message.  For every
    message [m] of four bits held in an array of an integer dtype other
    than [uint64] and every two different positions, inverting both bits
    of the codeword [encoder] returns with [bitflip_specific] and decoding
    raises nothing, never reports "no error" and never gives [m] back:
    either the error is declared uncorrectable, or a third position is
    "corrected" and a different message comes out. *)
Theorem double_fault_never_recovers g dt m p q :
  is_integer_dtype dt = true -> dt ≠ uint64 ->
  bitvector 4 m -> 0 <= p <= 6 -> 0 <= q <= 6 -> p ≠ q ->
  exists dt' c c1 c2,
    value (call g (Full.encoder (Literal.Array dt)) m) = Ok (dt', c) ∧
    value (call g (Full.bitflip_specific (Literal.Array dt') p) c) = Ok (dt', c1) ∧
    value (call g (Full.bitflip_specific (Literal.Array dt') q) c1) = Ok (dt', c2) ∧
    let r := call g (Full.decoder (Literal.Array dt')) c2 in
    value r = Ok tt ∧
    status (printed r) ≠ Some NoError ∧
    recovered_message (printed r) ≠ Some m ∧
    (forall position,
       status (printed r) = Some (Corrected position) ->
       position ≠ p + 1 ∧ position ≠ q + 1).
Proof.
  intros Hdt Hne Hm Hp Hq Hpq.
  pose proof (codeword_bitvector m Hm) as Hc.
  set (c := mul_mod2 Hamming.G m) in *.
  pose proof (flip_bit_bitvector 7 (Z.to_nat p) c Hc) as Hc1.
  exists int64, c, (flip_bit (Z.to_nat p) c),
    (flip_bit (Z.to_nat q) (flip_bit (Z.to_nat p) c)).
  rewrite (full_encoder_run g dt m Hdt Hm), (matmul_dtype_integer dt Hdt Hne).
  split; [reflexivity |].
  rewrite (full_bitflip_specific_flips g int64 c p (Z.to_nat p) eq_refl Hc ltac:(lia)
             (subscript_nonneg 7 p ltac:(lia))).
  split; [reflexivity |].
  rewrite (full_bitflip_specific_flips g int64 _ q (Z.to_nat q) eq_refl Hc1 ltac:(lia)
             (subscript_nonneg 7 q ltac:(lia))).
  split; [reflexivity |].
  pose proof (double_flip_decoded g m (Z.to_nat p) (Z.to_nat q) Hm
                ltac:(lia) ltac:(lia) ltac:(lia)) as Hd.
  rewrite !Z2Nat.id in Hd by lia.
  cbv zeta in *.
  rewrite (full_decoder_integer_array int64 (World _ [] g 0) eq_refl
           : call g (Full.decoder (Literal.Array int64)) _ = call g Hamming.decoder _).
  exact Hd.
Qed.

Lemma double_fault_never_recovers_witness :
  exists dt' c c1 c2,
    value (call (fun _ => 0) (Full.encoder (Literal.Array int32)) [1; 0; 1; 0])
    = Ok (dt', c) ∧
    value (call (fun _ => 0) (Full.bitflip_specific (Literal.Array dt') 2) c)
    = Ok (dt', c1) ∧
    value (call (fun _ => 0) (Full.bitflip_specific (Literal.Array dt') 4) c1)
    = Ok (dt', c2) ∧
    let r := call (fun _ => 0) (Full.decoder (Literal.Array dt')) c2 in
    value r = Ok tt ∧
    status (printed r) ≠ Some NoError ∧
    recovered_message (printed r) ≠ Some [1; 0; 1; 0] ∧
    (forall position,
       status (printed r) = Some (Corrected position) ->
       position ≠ 2 + 1 ∧ position ≠ 4 + 1).
Proof.
  apply (double_fault_never_recovers (fun _ => 0) int32 [1; 0; 1; 0] 2 4);
    [reflexivity | discriminate | compute_done | lia | lia | lia].
Defined.

(** ** The code as a set of vectors *)

Lemma distance_sym x y : distance x y = distance y x.
Proof.
  unfold distance. revert y. induction x as [|a x IH]; intros [|b y]; cbn; try reflexivity.
  rewrite IH. destruct (decide (a = b)), (decide (b = a)); congruence.
Qed.

Lemma distance_triangle x y z :
  length x = length y -> length y = length z ->
  (distance x z <= distance x y + distance y z)%nat.
Proof.
  unfold distance. revert y z.
  induction x as [|a x IH]; intros [|b y] [|c z] Hxy Hyz; simpl in *; try lia.
  specialize (IH y z ltac:(lia) ltac:(lia)).
  destruct (decide (a = c)), (decide (a = b)), (decide (b = c)); try lia; congruence.
Qed.

Lemma codewords_far_apart m m' :
  bitvector 4 m -> bitvector 4 m' -> m ≠ m' ->
  (3 <= distance (mul_mod2 Hamming.G m) (mul_mod2 Hamming.G m'))%nat.
Proof.
  intros Hm Hm'. revert m' Hm'. revert m Hm.
  each_bitvector; each_bitvector; intros Hne;
    first [exfalso; apply Hne; reflexivity | vm_compute; lia].
Qed.

(** X6: different messages give codewords that differ in at least three
    positions.  For all messages [m] and [m'] of four bits with [m ≠ m'],
    the arrays [encoder] returns for them are at distance 3 or more. *)
Theorem encoder_minimum_distance g m m' :
  bitvector 4 m -> bitvector 4 m' -> m ≠ m' ->
  exists c c',
    value (call g Hamming.encoder m) = Ok c ∧
    value (call g Hamming.encoder m') = Ok c' ∧
    (3 <= distance c c')%nat.
Proof.
  intros Hm Hm' Hne.
  exists (mul_mod2 Hamming.G m), (mul_mod2 Hamming.G m').
  rewrite (encoder_run g m Hm), (encoder_run g m' Hm').
  repeat split. apply codewords_far_apart; assumption.
Qed.

Lemma encoder_minimum_distance_witness :
  exists c c',
    value (call (fun _ => 0) Hamming.encoder [1; 0; 1; 0]) = Ok c ∧
    value (call (fun _ => 0) Hamming.encoder [1; 0; 1; 1]) = Ok c' ∧
    (3 <= distance c c')%nat.
Proof.
  apply (encoder_minimum_distance (fun _ => 0) [1; 0; 1; 0] [1; 0; 1; 1]);
    [compute_done | compute_done | discriminate].
Defined.

Lemma xor_of_codewords m m' :
  bitvector 4 m -> bitvector 4 m' ->
  mul_mod2 Hamming.G (xor_bits m m')
  = xor_bits (mul_mod2 Hamming.G m) (mul_mod2 Hamming.G m').
Proof.
  intros Hm Hm'. revert m' Hm'. revert m Hm.
  each_bitvector; each_bitvector; vm_compute; reflexivity.
Qed.

Lemma xor_bits_bitvector n x y :
  length x = n -> length y = n -> bitvector n (xor_bits x y).
Proof.
  intros Hx Hy. unfold xor_bits. split.
  - rewrite length_zip_with. lia.
  - apply Forall_forall. intros a Ha.
    apply list_elem_of_lookup in Ha as [i Hi].
    apply lookup_zip_with_Some in Hi as (b & c & -> & _).
    pose proof (Z.mod_pos_bound (b + c) 2). lia.
Qed.

(** X7: [encoder] is linear over GF(2).  For all messages [m] and [m'] of
    four bits, encoding their bitwise sum modulo 2 gives the bitwise sum
    modulo 2 of their codewords. *)
Theorem encoder_is_linear g m m' :
  bitvector 4 m -> bitvector 4 m' ->
  exists c c',
    value (call g Hamming.encoder m) = Ok c ∧
    value (call g Hamming.encoder m') = Ok c' ∧
    value (call g Hamming.encoder (xor_bits m m')) = Ok (xor_bits c c').
Proof.
  intros Hm Hm'.
  exists (mul_mod2 Hamming.G m), (mul_mod2 Hamming.G m').
  rewrite (encoder_run g m Hm), (encoder_run g m' Hm').
  rewrite (encoder_run g (xor_bits m m')
             (xor_bits_bitvector 4 m m' (proj1 Hm) (proj1 Hm'))).
  repeat split. cbn [value fst]. f_equal. apply xor_of_codewords; assumption.
Qed.

Lemma encoder_is_linear_witness :
  exists c c',
    value (call (fun _ => 0) Hamming.encoder [1; 0; 1; 0]) = Ok c ∧
    value (call (fun _ => 0) Hamming.encoder [0; 1; 1; 0]) = Ok c' ∧
    value (call (fun _ => 0) Hamming.encoder (xor_bits [1; 0; 1; 0] [0; 1; 1; 0]))
    = Ok (xor_bits c c').
Proof.
  apply (encoder_is_linear (fun _ => 0) [1; 0; 1; 0] [0; 1; 1; 0]); compute_done.
Defined.

(** ** What [decoder] gives is the nearest codeword *)

(** At most one codeword lies within distance 1 of a vector. *)
Lemma nearest_codeword_unique c m m' :
  bitvector 7 c -> bitvector 4 m -> bitvector 4 m' ->
  (distance c (mul_mod2 Hamming.G m) <= 1)%nat ->
  (distance c (mul_mod2 Hamming.G m') <= 1)%nat ->
  m = m'.
Proof.
  intros Hc Hm Hm' Hd Hd'.
  destruct (decide (m = m')) as [Heq | Hne]; [exact Heq | exfalso].
  pose proof (codewords_far_apart m m' Hm Hm' Hne) as Hfar.
  pose proof (codeword_bitvector m Hm) as [Hl _].
  pose proof (codeword_bitvector m' Hm') as [Hl' _].
  pose proof (distance_triangle (mul_mod2 Hamming.G m) c (mul_mod2 Hamming.G m')
                ltac:(rewrite Hl, (proj1 Hc); reflexivity)
                ltac:(rewrite Hl', (proj1 Hc); reflexivity)) as Htri.
  rewrite (distance_sym _ c) in Htri. lia.
Qed.

(** A message is only printed for an array that is its codeword and lies
    within one bit of the argument. *)
Lemma decoder_message_is_codeword g c message :
  bitvector 7 c ->
  recovered_message (printed (call g Hamming.decoder c)) = Some message ->
  bitvector 4 message ∧
  array (call g Hamming.decoder c) = mul_mod2 Hamming.G message ∧
  (distance c (mul_mod2 Hamming.G message) <= 1)%nat.
Proof.
  intros Hc.
  destruct (decide (weight (syndrome c) = 0)) as [Hw0 | Hw0];
    [| destruct (decide (weight (syndrome c) = 1)) as [Hw1 | Hw1]].
  - rewrite (decoder_no_error g c Hc Hw0). intros [= <-].
    apply (weight_range _ (syndrome_bitvector c)) in Hw0.
    destruct (kernel_is_codeword c Hc Hw0) as [Hm Hcm].
    cbn [array snd mem]. rewrite <- Hcm, distance_refl. auto.
  - rewrite (decoder_uncorrectable g c Hc Hw1). intros [=].
  - destruct (locate_syndrome c Hw0) as (i & Hi & Hrange & _).
    rewrite (decoder_corrected g c i Hc Hw0 Hw1 Hi). intros [= <-].
    pose proof (flip_bit_bitvector 7 (Z.to_nat i) c Hc) as Hc'.
    destruct (kernel_is_codeword _ Hc' (flip_located_bit c i Hc Hi)) as [Hm Hcm].
    cbn [array snd mem]. rewrite <- Hcm.
    rewrite distance_flip_bit by (rewrite (proj1 Hc); lia). auto.
Qed.

(** X8: the message [decoder] gives is that of the nearest codeword.  For
    every vector [c] of seven bits, when [decoder] prints a message, the
    codeword of that message is the array the decoder leaves, it differs
    from [c] in at most one position, and no other message of four bits
    has a codeword that close to [c]. *)
Theorem decoder_gives_nearest_codeword g c message :
  bitvector 7 c ->
  recovered_message (printed (call g Hamming.decoder c)) = Some message ->
  bitvector 4 message ∧
  array (call g Hamming.decoder c) = mul_mod2 Hamming.G message ∧
  (distance c (mul_mod2 Hamming.G message) <= 1)%nat ∧
  (forall m', bitvector 4 m' ->
     (distance c (mul_mod2 Hamming.G m') <= 1)%nat -> m' = message).
Proof.
  intros Hc Hmsg.
  destruct (decoder_message_is_codeword g c message Hc Hmsg) as (Hm & Harr & Hnear).
  repeat split; try assumption; try apply Hm.
  intros m' Hm' Hd. symmetry.
  exact (nearest_codeword_unique c message m' Hc Hm Hm' Hnear Hd).
Qed.

Lemma decoder_gives_nearest_codeword_witness :
  let c := [1; 0; 0; 1; 0; 1; 0] in
  let message := [1; 0; 1; 0] in
  bitvector 4 message ∧
  array (call (fun _ => 0) Hamming.decoder c) = mul_mod2 Hamming.G message ∧
  (distance c (mul_mod2 Hamming.G message) <= 1)%nat ∧
  (forall m', bitvector 4 m' ->
     (distance c (mul_mod2 Hamming.G m') <= 1)%nat -> m' = message).
Proof.
  apply (decoder_gives_nearest_codeword (fun _ => 0) [1; 0; 0; 1; 0; 1; 0] [1; 0; 1; 0]);
    [compute_done | reflexivity].
Defined.

Lemma weight_one_is_parity_error c :
  bitvector 7 c -> weight (syndrome c) = 1 ->
  distance c (mul_mod2 Hamming.G (mul_mod2 Hamming.R c)) = 1%nat.
Proof.
  revert c. each_bitvector; intros Hw; vm_compute in Hw;
    first [discriminate Hw | vm_compute; reflexivity].
Qed.

(** X9: what the refusal at syndrome weight 1 withholds.  For every
    vector [c] of seven bits whose syndrome has weight 1, [decoder] gives
    no message and leaves [c] as it is, although [c] is exactly one bit
    away from the codeword of [R · c mod 2] and from no other codeword:
    the damaged bit lies outside the four positions that carry the
    message. *)
Theorem uncorrectable_hides_intact_message g c :
  bitvector 7 c -> weight (syndrome c) = 1 ->
  let r := call g Hamming.decoder c in
  let m := mul_mod2 Hamming.R c in
  recovered_message (printed r) = None ∧
  array r = c ∧
  bitvector 4 m ∧
  distance c (mul_mod2 Hamming.G m) = 1%nat ∧
  (forall m', bitvector 4 m' ->
     (distance c (mul_mod2 Hamming.G m') <= 1)%nat -> m' = m).
Proof.
  intros Hc Hw. cbv zeta.
  rewrite (decoder_uncorrectable g c Hc Hw).
  pose proof (mul_mod2_bitvector Hamming.R c) as Hm.
  pose proof (weight_one_is_parity_error c Hc Hw) as Hd.
  repeat split; try apply Hm; try exact Hd.
  intros m' Hm' Hd'. symmetry.
  apply (nearest_codeword_unique c _ m' Hc Hm Hm'); [lia | exact Hd'].
Qed.

Lemma uncorrectable_hides_intact_message_witness :
  let c := [0; 0; 1; 1; 0; 1; 0] in
  let r := call (fun _ => 0) Hamming.decoder c in
  let m := mul_mod2 Hamming.R c in
  recovered_message (printed r) = None ∧
  array r = c ∧
  bitvector 4 m ∧
  distance c (mul_mod2 Hamming.G m) = 1%nat ∧
  (forall m', bitvector 4 m' ->
     (distance c (mul_mod2 Hamming.G m') <= 1)%nat -> m' = m).
Proof.
  apply (uncorrectable_hides_intact_message (fun _ => 0) [0; 0; 1; 1; 0; 1; 0]);
    [compute_done | reflexivity].
Defined.

(** X10: decoding again.  [decoder] corrects the array in place, so for
    every vector [c] of seven bits a second call on the array the first
    one left raises nothing, changes nothing more and gives the same
    message or lack of one; it reports "no error" whenever the first call
    gave a message, and "uncorrectable" again otherwise. *)
Theorem decoder_twice g c :
  bitvector 7 c ->
  let r1 := call g Hamming.decoder c in
  let r2 := call g Hamming.decoder (array r1) in
  value r2 = Ok tt ∧
  array r2 = array r1 ∧
  recovered_message (printed r2) = recovered_message (printed r1) ∧
  (status (printed r1) = Some Uncorrectable ->
   status (printed r2) = Some Uncorrectable) ∧
  (status (printed r1) ≠ Some Uncorrectable ->
   status (printed r2) = Some NoError).
Proof.
  intros Hc. cbv zeta.
  destruct (decide (weight (syndrome c) = 0)) as [Hw0 | Hw0];
    [| destruct (decide (weight (syndrome c) = 1)) as [Hw1 | Hw1]].
  - rewrite (decoder_no_error g c Hc Hw0). cbn [array snd mem].
    rewrite (decoder_no_error g c Hc Hw0).
    repeat split; intros; try reflexivity; discriminate.
  - rewrite (decoder_uncorrectable g c Hc Hw1). cbn [array snd mem].
    rewrite (decoder_uncorrectable g c Hc Hw1).
    repeat split; intros; try reflexivity; contradiction.
  - destruct (locate_syndrome c Hw0) as (i & Hi & _).
    rewrite (decoder_corrected g c i Hc Hw0 Hw1 Hi). cbn [array snd mem].
    pose proof (flip_bit_bitvector 7 (Z.to_nat i) c Hc) as Hc'.
    pose proof (flip_located_bit c i Hc Hi) as Hz.
    rewrite (decoder_no_error g _ Hc') by (rewrite Hz; reflexivity).
    repeat split; intros; try reflexivity; discriminate.
Qed.

Lemma decoder_twice_witness :
  let r1 := call (fun _ => 0) Hamming.decoder [1; 0; 0; 1; 0; 1; 0] in
  let r2 := call (fun _ => 0) Hamming.decoder (array r1) in
  value r2 = Ok tt ∧
  array r2 = array r1 ∧
  recovered_message (printed r2) = recovered_message (printed r1) ∧
  (status (printed r1) = Some Uncorrectable ->
   status (printed r2) = Some Uncorrectable) ∧
  (status (printed r1) ≠ Some Uncorrectable ->
   status (printed r2) = Some NoError).
Proof.
  apply (decoder_twice (fun _ => 0) [1; 0; 0; 1; 0; 1; 0]). compute_done.
Defined.

(** ** The status depends on the damage alone *)

Lemma syndrome_of_damaged_codeword m e :
  bitvector 4 m -> bitvector 7 e ->
  syndrome (xor_bits (mul_mod2 Hamming.G m) e) = syndrome e.
Proof.
  intros Hm He. revert e He. revert m Hm.
  each_bitvector; each_bitvector; vm_compute; reflexivity.
Qed.

Lemma decoder_status_by_syndrome g c c' :
  bitvector 7 c -> bitvector 7 c' -> syndrome c = syndrome c' ->
  status (printed (call g Hamming.decoder c))
  = status (printed (call g Hamming.decoder c')).
Proof.
  intros Hc Hc' Hs.
  destruct (decide (weight (syndrome c) = 0)) as [Hw0 | Hw0];
    [| destruct (decide (weight (syndrome c) = 1)) as [Hw1 | Hw1]].
  - rewrite (decoder_no_error g c Hc Hw0).
    rewrite Hs in Hw0. rewrite (decoder_no_error g c' Hc' Hw0). reflexivity.
  - rewrite (decoder_uncorrectable g c Hc Hw1).
    rewrite Hs in Hw1. rewrite (decoder_uncorrectable g c' Hc' Hw1). reflexivity.
  - destruct (locate_syndrome c Hw0) as (i & Hi & _).
    rewrite (decoder_corrected g c i Hc Hw0 Hw1 Hi).
    rewrite Hs in Hw0, Hw1, Hi.
    rewrite (decoder_corrected g c' i Hc' Hw0 Hw1 Hi). reflexivity.
Qed.

(** X11: the status [decoder] reports depends on the damage, not on the
    message.  For every message [m] of four bits and every error pattern
    [e] of seven bits, decoding the codeword of [m] with [e] added modulo 2
    raises nothing and reports the status that decoding [e] itself
    reports. *)
Theorem decoder_status_ignores_message g m e :
  bitvector 4 m -> bitvector 7 e ->
  exists c,
    value (call g Hamming.encoder m) = Ok c ∧
    value (call g Hamming.decoder (xor_bits c e)) = Ok tt ∧
    status (printed (call g Hamming.decoder (xor_bits c e)))
    = status (printed (call g Hamming.decoder e)).
Proof.
  intros Hm He. exists (mul_mod2 Hamming.G m).
  rewrite (encoder_run g m Hm). split; [reflexivity |].
  pose proof (codeword_bitvector m Hm) as [Hl _].
  pose proof (xor_bits_bitvector 7 _ e Hl (proj1 He)) as Hx.
  split.
  - destruct (decide (weight (syndrome (xor_bits (mul_mod2 Hamming.G m) e)) = 0))
      as [Hw0 | Hw0];
      [| destruct (decide (weight (syndrome (xor_bits (mul_mod2 Hamming.G m) e)) = 1))
           as [Hw1 | Hw1]].
    + rewrite (decoder_no_error g _ Hx Hw0). reflexivity.
    + rewrite (decoder_uncorrectable g _ Hx Hw1). reflexivity.
    + destruct (locate_syndrome _ Hw0) as (i & Hi & _).
      rewrite (decoder_corrected g _ i Hx Hw0 Hw1 Hi). reflexivity.
  - apply decoder_status_by_syndrome; [exact Hx | exact He |].
    apply syndrome_of_damaged_codeword; assumption.
Qed.

Lemma decoder_status_ignores_message_witness :
  exists c,
    value (call (fun _ => 0) Hamming.encoder [1; 0; 1; 0]) = Ok c ∧
    value (call (fun _ => 0) Hamming.decoder (xor_bits c [0; 0; 1; 0; 0; 0; 0])) = Ok tt ∧
    status (printed (call (fun _ => 0) Hamming.decoder (xor_bits c [0; 0; 1; 0; 0; 0; 0])))
    = status (printed (call (fun _ => 0) Hamming.decoder [0; 0; 1; 0; 0; 0; 0])).
Proof.
  apply (decoder_status_ignores_message (fun _ => 0) [1; 0; 1; 0] [0; 0; 1; 0; 0; 0; 0]);
    compute_done.
Defined.

(** ** [bitflip_rand] with a count it can meet *)

Lemma flips_lookup positions c j v :
  c !! j = Some v ->
  flips positions c !! j
  = Some (if decide (Z.of_nat j ∈ positions) then 1 - v else v).
Proof.
  intros Hv. unfold flips. rewrite list_lookup_imap, Hv. reflexivity.
Qed.

Lemma distance_flip_fresh a x y :
  length x = length y -> (a < length x)%nat -> y !! a = x !! a ->
  distance x (flip_bit a y) = S (distance x y).
Proof.
  unfold distance, flip_bit. revert a y.
  induction x as [|b x IH]; intros a [|d y] Hlen Ha Hsame; simpl in *; try lia.
  destruct a as [|a]; cbn.
  - injection Hsame as ->. rewrite decide_False by lia.
    rewrite decide_True by reflexivity. reflexivity.
  - rewrite (IH a y) by (try lia; exact Hsame). lia.
Qed.

Lemma distance_flips (positions : gset Z) c :
  (forall i, i ∈ positions -> 0 <= i < Z.of_nat (length c)) ->
  distance c (flips positions c) = size positions.
Proof.
  induction positions as [|i X Hfresh IH] using set_ind_L; intros Hrange.
  - rewrite flips_empty, distance_refl, size_empty. reflexivity.
  - assert (0 <= i < Z.of_nat (length c)) as Hi
      by (apply Hrange, elem_of_union_l, elem_of_singleton; reflexivity).
    rewrite <- flip_bit_flips by (lia || exact Hfresh).
    rewrite distance_flip_fresh.
    + rewrite IH by (intros k Hk; apply Hrange, elem_of_union_r, Hk).
      rewrite size_union by (apply disjoint_singleton_l, Hfresh).
      rewrite size_singleton. reflexivity.
    + rewrite flips_length. reflexivity.
    + lia.
    + destruct (lookup_lt_is_Some_2 c (Z.to_nat i) ltac:(lia)) as [v Hv].
      rewrite (flips_lookup X c _ v Hv), Hv.
      rewrite decide_False by (rewrite Z2Nat.id by lia; exact Hfresh). reflexivity.
Qed.

Lemma flips_bitvector n positions c : bitvector n c -> bitvector n (flips positions c).
Proof.
  intros [Hlen Hbits]. split; [rewrite flips_length; exact Hlen |].
  apply Forall_forall. intros a Ha.
  apply list_elem_of_lookup in Ha as [j Hj]. unfold flips in Hj.
  rewrite list_lookup_imap in Hj.
  destruct (c !! j) as [v |] eqn:Hv; [| discriminate]. injection Hj as <-.
  assert (v = 0 ∨ v = 1) as Hbit
    by (apply (proj1 (Forall_forall _ _) Hbits), list_elem_of_lookup; eauto).
  destruct (decide _); lia.
Qed.

(** X12: whenever [bitflip_rand] returns, it has flipped exactly as many
    bits as asked.  For every vector [c] of seven bits, if the call returns
    then the count was 1 or 2, the value returned is the array, it is again
    a vector of seven bits, and it differs from [c] at exactly that number
    of positions. *)
Theorem bitflip_rand_flips_exactly g c fuel number_of_bits_to_flip x :
  bitvector 7 c ->
  value (call g (Support.bitflip_rand fuel number_of_bits_to_flip) c) = Ok x ->
  1 <= number_of_bits_to_flip <= 2 ∧
  array (call g (Support.bitflip_rand fuel number_of_bits_to_flip) c) = x ∧
  bitvector 7 x ∧
  Z.of_nat (distance c x) = number_of_bits_to_flip.
Proof.
  intros Hc Hx.
  destruct (bitflip_rand_returns g c fuel number_of_bits_to_flip x Hc Hx)
    as (positions & Hsize & Hrange & -> & Harr).
  assert (distance c (flips positions c) = size positions) as Hd.
  { apply distance_flips. rewrite (proj1 Hc). exact Hrange. }
  assert (number_of_bits_to_flip <= 2) as Hk.
  { destruct (Z.gtb_spec number_of_bits_to_flip 2) as [Hgt | Hle]; [| lia].
    rewrite (bitflip_rand_rejects g c fuel number_of_bits_to_flip ltac:(lia)) in Hx. discriminate Hx. }
  assert (number_of_bits_to_flip ≠ 0) as Hnz.
  { intros ->. pose proof (flip_loop_zero fuel ∅ (World c [] g 0) (proj1 Hc)) as Hz.
    unfold call, Support.bitflip_rand in Hx.
    erewrite bind_ok in Hx; [| apply check_input_ok; [lia | exact Hc]].
    change (0 >? 2) with false in Hx. cbv iota in Hx.
    destruct (Support.flip_loop fuel 0 ∅ (World c [] g 0)) as [v w'] eqn:Hrun.
    simpl in Hz. subst v.
    erewrite bind_out_of_fuel in Hx; [| exact Hrun]. discriminate Hx. }
  repeat split; try lia; try exact Harr; try apply (flips_bitvector 7), Hc.
Qed.

Lemma bitflip_rand_flips_exactly_witness :
  let g := fun n : nat => Z.of_nat n + 3 in
  let c := [1; 0; 1; 0; 1; 0; 1] in
  let x := [1; 0; 1; 1; 0; 0; 1] in
  1 <= 2 <= 2 ∧
  array (call g (Support.bitflip_rand 5 2) c) = x ∧
  bitvector 7 x ∧
  Z.of_nat (distance c x) = 2.
Proof.
  apply (bitflip_rand_flips_exactly (fun n : nat => Z.of_nat n + 3)
           [1; 0; 1; 0; 1; 0; 1] 5 2 [1; 0; 1; 1; 0; 0; 1]);
    [compute_done | reflexivity].
Defined.

(** X13: asked for one flip, [bitflip_rand] stops after its first draw.
    For every vector [c] of seven bits and every entropy stream, as soon
    as one iteration is followed the call returns the array with the bit at
    the drawn position inverted, a vector at distance 1 from [c]; one
    random number has been consumed and nothing printed. *)
Theorem bitflip_rand_one_flip g c fuel :
  bitvector 7 c ->
  let c' := flip_bit (Z.to_nat (g 0%nat `mod` 7)) c in
  call g (Support.bitflip_rand (S fuel) 1) c = (Ok c', World c' [] g 1) ∧
  distance c c' = 1%nat.
Proof.
  intros Hc c'. split.
  - unfold call, Support.bitflip_rand.
    erewrite bind_ok; [| apply check_input_ok; [lia | exact Hc]].
    change (1 >? 2) with false. cbv iota.
    erewrite bind_ok;
      [| rewrite flip_loop_step by exact (proj1 Hc);
         unfold flipped_after, world_after, next_draw; cbn [mem rng drawn out];
         rewrite decide_False by set_solver;
         rewrite union_empty_r_L, size_singleton; reflexivity].
    reflexivity.
  - apply distance_flip_bit. rewrite (proj1 Hc).
    pose proof (Z.mod_pos_bound (g 0%nat) 7). lia.
Qed.

Lemma bitflip_rand_one_flip_witness :
  let g := fun n : nat => Z.of_nat n + 3 in
  let c := [1; 0; 1; 0; 1; 0; 1] in
  let c' := flip_bit (Z.to_nat (g 0%nat `mod` 7)) c in
  call g (Support.bitflip_rand 1 1) c = (Ok c', World c' [] g 1) ∧
  distance c c' = 1%nat.
Proof.
  apply (bitflip_rand_one_flip (fun n : nat => Z.of_nat n + 3) [1; 0; 1; 0; 1; 0; 1] 0).
  compute_done.
Defined.

(** After a first position [a], the loop skips the draws that repeat [a]
    and is left at the first other draw. *)
Lemma flip_loop_second_exact a fuel w n :
  length (mem w) = 7%nat -> (n < fuel)%nat ->
  rng w (drawn w + n)%nat `mod` 7 ≠ a ->
  (forall k, (k < n)%nat -> rng w (drawn w + k)%nat `mod` 7 = a) ->
  Support.flip_loop fuel 2 {[a]} w =
  (Ok tt,
   World (flip_bit (Z.to_nat (rng w (drawn w + n)%nat `mod` 7)) (mem w))
         (out w) (rng w) (S (drawn w + n))).
Proof.
  revert w n. induction fuel as [|fuel IH]; intros w n Hlen Hn Hdiff Hsame; [lia |].
  rewrite flip_loop_step by exact Hlen.
  unfold flipped_after.
  destruct (decide (next_draw w ∈ ({[a]} : gset Z))) as [Hin | Hout].
  - rewrite size_singleton. change (Z.of_nat 1 =? 2) with false. cbv iota.
    apply elem_of_singleton in Hin.
    destruct n as [|n]; [rewrite Nat.add_0_r in Hdiff; contradiction |].
    rewrite (IH _ n).
    + unfold world_after. cbn [mem out rng drawn].
      rewrite decide_True by (apply elem_of_singleton, Hin).
      replace (S (drawn w) + n)%nat with (drawn w + S n)%nat by lia. reflexivity.
    + rewrite world_after_length. exact Hlen.
    + lia.
    + unfold world_after. cbn [rng drawn].
      replace (S (drawn w) + n)%nat with (drawn w + S n)%nat by lia. exact Hdiff.
    + intros k Hk. unfold world_after. cbn [rng drawn].
      replace (S (drawn w) + k)%nat with (drawn w + S k)%nat by lia.
      apply Hsame. lia.
  - rewrite size_union by (apply disjoint_singleton_l, Hout).
    rewrite !size_singleton.
    change (Z.of_nat (1 + 1) =? 2) with true. cbv iota.
    destruct n as [|n].
    + unfold world_after. rewrite decide_False by exact Hout.
      rewrite Nat.add_0_r. reflexivity.
    + exfalso. apply Hout, elem_of_singleton.
      specialize (Hsame 0%nat ltac:(lia)). rewrite Nat.add_0_r in Hsame. exact Hsame.
Qed.

(** X14: asked for two flips, [bitflip_rand] draws until a position other
    than the first comes up.  For every vector [c] of seven bits: if draw
    number [n] is the first whose position differs from that of draw 0,
    and more than [n] iterations are followed, the call returns the array
    with the bits at these two positions inverted, at distance 2 from [c],
    having consumed [n + 1] random numbers; the repeated draws in between
    flipped nothing. *)
Theorem bitflip_rand_two_flips g c fuel n :
  bitvector 7 c -> (n < fuel)%nat ->
  g n `mod` 7 ≠ g 0%nat `mod` 7 ->
  (forall k, (k < n)%nat -> g k `mod` 7 = g 0%nat `mod` 7) ->
  let c' := flip_bit (Z.to_nat (g n `mod` 7)) (flip_bit (Z.to_nat (g 0%nat `mod` 7)) c) in
  call g (Support.bitflip_rand fuel 2) c = (Ok c', World c' [] g (S n)) ∧
  distance c c' = 2%nat.
Proof.
  intros Hc Hn Hdiff Hsame c'.
  destruct n as [|n]; [contradiction |].
  destruct fuel as [|fuel]; [lia |].
  pose proof (Z.mod_pos_bound (g 0%nat) 7 ltac:(lia)) as H0.
  pose proof (Z.mod_pos_bound (g (S n)) 7 ltac:(lia)) as H1.
  split.
  - unfold call, Support.bitflip_rand.
    erewrite bind_ok; [| apply check_input_ok; [lia | exact Hc]].
    change (2 >? 2) with false. cbv iota.
    erewrite bind_ok;
      [| rewrite flip_loop_step by exact (proj1 Hc);
         unfold flipped_after, next_draw; cbn [rng drawn];
         rewrite decide_False by set_solver;
         rewrite !union_empty_r_L, size_singleton;
         change (Z.of_nat 1 =? 2) with false; cbv iota;
         apply (flip_loop_second_exact _ fuel _ n);
         [ rewrite world_after_length; exact (proj1 Hc)
         | lia
         | exact Hdiff
         | intros k Hk; apply (Hsame (S k)); lia ] ].
    unfold world_after, next_draw. cbn [mem out rng drawn Py.load].
    rewrite decide_False by set_solver. reflexivity.
  - subst c'. rewrite distance_flip_fresh.
    + rewrite distance_flip_bit by (rewrite (proj1 Hc); lia). reflexivity.
    + unfold flip_bit. rewrite length_alter. reflexivity.
    + rewrite (proj1 Hc). lia.
    + unfold flip_bit. apply list_lookup_alter_ne. lia.
Qed.

Lemma bitflip_rand_two_flips_witness :
  let g := fun n : nat => if (n <? 3)%nat then 5 else 8 in
  let c := [1; 0; 1; 0; 1; 0; 1] in
  let c' := flip_bit (Z.to_nat (g 3%nat `mod` 7)) (flip_bit (Z.to_nat (g 0%nat `mod` 7)) c) in
  call g (Support.bitflip_rand 4 2) c = (Ok c', World c' [] g 4) ∧
  distance c c' = 2%nat.
Proof.
  apply (bitflip_rand_two_flips (fun n : nat => if (n <? 3)%nat then 5 else 8)
           [1; 0; 1; 0; 1; 0; 1] 4 3).
  - compute_done.
  - lia.
  - vm_compute. discriminate.
  - intros k Hk. destruct k as [|[|[|k]]]; [reflexivity | reflexivity | reflexivity | lia].
Defined.

Lemma flip_loop_nonpositive fuel k flipped_bits w :
  k <= 0 -> length (mem w) = 7%nat ->
  fst (Support.flip_loop fuel k flipped_bits w) = OutOfFuel.
Proof.
  intros Hk. revert flipped_bits w.
  induction fuel as [|fuel IH]; intros flipped_bits w Hlen; [reflexivity |].
  rewrite flip_loop_step by exact Hlen.
  pose proof (flipped_after_nonempty flipped_bits w).
  destruct (Z.eqb_spec (Z.of_nat (size (flipped_after flipped_bits w))) k); [lia |].
  apply IH. rewrite world_after_length. exact Hlen.
Qed.

(** X15: a negative count is not refused.  The guard of [bitflip_rand]
    only looks for counts above 2, so for every vector [c] of seven bits,
    every count below 0, every entropy stream and every number of
    iterations followed, the call has neither returned nor raised: no size
    of [flipped_bits] ever equals the count. *)
Theorem bitflip_rand_negative_count_never_returns g c fuel number_of_bits_to_flip :
  bitvector 7 c -> number_of_bits_to_flip < 0 ->
  value (call g (Support.bitflip_rand fuel number_of_bits_to_flip) c) = OutOfFuel.
Proof.
  intros Hc Hk. unfold call, Support.bitflip_rand.
  erewrite bind_ok; [| apply check_input_ok; [lia | exact Hc]].
  replace (number_of_bits_to_flip >? 2) with false by lia.
  pose proof (flip_loop_nonpositive fuel number_of_bits_to_flip ∅ (World c [] g 0)
                ltac:(lia) (proj1 Hc)) as Hloop.
  destruct (Support.flip_loop fuel number_of_bits_to_flip ∅ (World c [] g 0))
    as [v w'] eqn:Hrun.
  simpl in Hloop. subst v.
  erewrite bind_out_of_fuel; [| exact Hrun]. reflexivity.
Qed.

Lemma bitflip_rand_negative_count_never_returns_witness :
  value (call (fun n => Z.of_nat n) (Support.bitflip_rand 20 (-1)) [1; 0; 1; 0; 1; 0; 1])
  = OutOfFuel.
Proof.
  apply (bitflip_rand_negative_count_never_returns
           (fun n => Z.of_nat n) [1; 0; 1; 0; 1; 0; 1] 20 (-1));
    [compute_done | lia].
Defined.

(** ** [check_input] on literal arguments *)

Section LiteralFacts.

Import Ascii String.


Lemma bits_have_integer_dtype l :
  l ≠ [] -> forallb (fun a => (a =? 0) || (a =? 1)) l = true ->
  Literal.array_dtype_is_integer l = true.
Proof.
  intros Hne Hbits. destruct l as [|a l]; [contradiction |].
  unfold Literal.array_dtype_is_integer. apply orb_true_iff. left.
  apply forallb_forall. intros b Hb.
  apply (proj1 (forallb_forall _ _) Hbits) in Hb. lia.
Qed.

(** The tests of lines 61-72 once the argument has become the array [a]
    of the world. *)
Lemma check_array_ok a w k :
  0 <= k -> bitvector (Z.to_nat k) a -> a ≠ [] ->
  (x <- Py.load ;;
   if negb (Np.size x =? k) then Py.raise ValueError
   else if negb (Literal.array_dtype_is_integer a) then Py.raise ValueError
   else if negb (forallb (fun b => (b =? 0) || (b =? 1)) x) then Py.raise ValueError
   else Py.ret tt) (World a (out w) (rng w) (drawn w))
  = (Ok tt, World a (out w) (rng w) (drawn w)).
Proof.
  intros Hk [Hlen Hbits] Hne. apply forallb_bits in Hbits.
  unfold Py.bind, Py.load, Np.size. cbn [mem].
  rewrite Hlen, Z2Nat.id, Z.eqb_refl by exact Hk. cbn [negb].
  rewrite (bits_have_integer_dtype a Hne Hbits), Hbits. reflexivity.
Qed.

Lemma check_array_inv a is_integer w k w' :
  (x <- Py.load ;;
   if negb (Np.size x =? k) then Py.raise ValueError
   else if negb is_integer then Py.raise ValueError
   else if negb (forallb (fun b => (b =? 0) || (b =? 1)) x) then Py.raise ValueError
   else Py.ret tt) (World a (out w) (rng w) (drawn w))
  = (Ok tt, w') ->
  w' = World a (out w) (rng w) (drawn w) ∧ bitvector (Z.to_nat k) a ∧ 0 <= k
  ∧ is_integer = true.
Proof.
  unfold Py.bind, Py.load, Np.size. cbn [mem].
  destruct (Z.eqb_spec (Z.of_nat (List.length a)) k) as [Hk | Hk]; simpl; [| discriminate].
  destruct is_integer; simpl; [| discriminate].
  destruct (forallb _ a) eqn:Hbits; simpl; [| discriminate].
  intros [= <-]. repeat split; try lia. apply forallb_bits, Hbits.
Qed.



(** *** An [int] argument *)

Lemma digits_string_of_uint u :
  Literal.digits (DecimalString.NilEmpty.string_of_uint u) = Ok (uint_digits u).
Proof.
  induction u as [|u IH|u IH|u IH|u IH|u IH|u IH|u IH|u IH|u IH|u IH];
    [reflexivity | cbn [DecimalString.NilEmpty.string_of_uint Literal.digits uint_digits];
                   rewrite IH; reflexivity ..].
Qed.

Lemma string_of_uint_nonnil u :
  u ≠ Decimal.Nil ->
  DecimalString.NilZero.string_of_uint u = DecimalString.NilEmpty.string_of_uint u.
Proof. destruct u; [congruence | reflexivity ..]. Qed.

Lemma of_uint_acc_decimal u acc :
  Z.pos (Pos.of_uint_acc u acc)
  = fold_left (fun a d => 10 * a + d) (uint_digits u) (Z.pos acc).
Proof.
  revert acc.
  induction u as [|u IH|u IH|u IH|u IH|u IH|u IH|u IH|u IH|u IH|u IH];
    intros acc; [reflexivity | cbn [Pos.of_uint_acc uint_digits fold_left];
                               rewrite IH; f_equal; lia ..].
Qed.

Lemma of_uint_decimal u :
  Z.of_N (Pos.of_uint u) = Literal.decimal (uint_digits u).
Proof.
  unfold Literal.decimal.
  induction u as [|u IH|u IH|u IH|u IH|u IH|u IH|u IH|u IH|u IH|u IH];
    [reflexivity | exact IH
     | cbn [Pos.of_uint uint_digits fold_left Z.of_N];
       rewrite of_uint_acc_decimal; reflexivity ..].
Qed.

(** A numeral that is its own normal form does not start with 0, unless it
    is the numeral 0. *)
Lemma normal_numeral_head u :
  Decimal.unorm u = u -> u = Decimal.zero ∨ head (uint_digits u) ≠ Some 0.
Proof.
  destruct u as [|u|u|u|u|u|u|u|u|u|u]; intros Hn;
    [left; exact (eq_sym Hn) | | right; discriminate ..].
  left. rewrite DecimalFacts.unorm_D0 in Hn. unfold Decimal.unorm in Hn.
  destruct (Decimal.nzhead u) eqn:Hz; try discriminate Hn.
  - symmetry. exact Hn.
  - exfalso. revert Hz. rewrite Hn. apply DecimalFacts.nzhead_nonzero.
Qed.

(** [str(n)] for a non-negative [n]: its digits, of which [n] is the
    value, without a leading 0 unless [n] is 0. *)
Lemma digits_of_nonnegative n :
  0 <= n ->
  exists ds,
    Literal.digits (Literal.str_of_int n) = Ok ds ∧
    n = Literal.decimal ds ∧
    (ds = [0] ∨ head ds ≠ Some 0) ∧ ds ≠ [].
Proof.
  intros Hn. unfold Literal.str_of_int. destruct n as [|p|p]; [| | lia].
  - exists [0]. repeat split; auto.
  - cbn [Z.to_int DecimalString.NilZero.string_of_int].
    rewrite string_of_uint_nonnil by apply DecimalPos.Unsigned.to_uint_nonnil.
    exists (uint_digits (Pos.to_uint p)). rewrite digits_string_of_uint.
    split; [reflexivity |]. split; [| split].
    + rewrite <- of_uint_decimal, DecimalPos.Unsigned.of_to. reflexivity.
    + destruct (normal_numeral_head (Pos.to_uint p)) as [Hz | Hh].
      * pose proof (DecimalPos.Unsigned.to_of (Pos.to_uint p)) as Hto.
        rewrite DecimalPos.Unsigned.of_to in Hto. symmetry. exact Hto.
      * exfalso. exact (DecimalPos.Unsigned.to_uint_nonzero p Hz).
      * right. exact Hh.
    + pose proof (DecimalPos.Unsigned.to_uint_nonnil p) as Hnil.
      destruct (Pos.to_uint p); [congruence | discriminate ..].
Qed.

Lemma digits_of_negative n :
  n < 0 -> Literal.digits (Literal.str_of_int n) = Raise ValueError.
Proof. intros Hn. destruct n as [|p|p]; [lia | lia | reflexivity]. Qed.

Lemma uint_digits_of_bits a :
  Forall (fun b => b = 0 ∨ b = 1) a -> uint_digits (uint_of_bits a) = a.
Proof.
  induction 1 as [|b a [-> | ->] _ IH]; simpl; [reflexivity | |]; rewrite IH; reflexivity.
Qed.

(** The decimal numeral of [decimal a] is written with the bits [a]
    themselves when [a] does not start with 0. *)
Lemma str_of_decimal_bits a :
  Forall (fun b => b = 0 ∨ b = 1) a -> a = [0] ∨ head a = Some 1 ->
  Literal.digits (Literal.str_of_int (Literal.decimal a)) = Ok a.
Proof.
  intros Hbits Hhead. unfold Literal.str_of_int.
  assert (Z.to_int (Literal.decimal a) = Decimal.Pos (uint_of_bits a)) as ->.
  { rewrite <- (uint_digits_of_bits a Hbits) at 1. rewrite <- of_uint_decimal.
    change (Z.of_N (Pos.of_uint (uint_of_bits a)))
      with (Z.of_int (Decimal.Pos (uint_of_bits a))).
    rewrite DecimalZ.to_of.
    destruct Hhead as [-> | Hh]; [reflexivity |].
    destruct a as [|b a]; [discriminate |]. injection Hh as ->. reflexivity. }
  cbn [DecimalString.NilZero.string_of_int].
  rewrite string_of_uint_nonnil.
  - rewrite digits_string_of_uint, uint_digits_of_bits by exact Hbits. reflexivity.
  - destruct Hhead as [-> | Hh]; [discriminate |].
    destruct a as [|b a]; [discriminate |]. injection Hh as ->. discriminate.
Qed.

(** X17: which integers [check_input] accepts.  When an [int] is accepted
    for the length [input_length], the array holds [input_length] bits that
    are the decimal digits of the integer, the first of them 1 unless the
    integer is 0; conversely, for a length of at most 4300, the integer
    written in decimal with such bits is accepted and yields them.  So a
    vector of several bits that starts with 0 cannot be given as an [int],
    and negative integers are refused with [ValueError]. *)
Theorem check_input_int n input_length w :
  (forall w',
     Literal.check_input (Literal.Int n) input_length w = (Ok tt, w') ->
     w' = World (mem w') (out w) (rng w) (drawn w) ∧
     bitvector (Z.to_nat input_length) (mem w') ∧
     n = Literal.decimal (mem w') ∧
     (mem w' = [0] ∨ head (mem w') = Some 1)) ∧
  (forall a,
     0 <= input_length <= 4300 -> bitvector (Z.to_nat input_length) a ->
     a = [0] ∨ head a = Some 1 ->
     Literal.check_input (Literal.Int (Literal.decimal a)) input_length w
     = (Ok tt, World a (out w) (rng w) (drawn w))) ∧
  (n < 0 ->
     Literal.check_input (Literal.Int n) input_length w = (Raise ValueError, w)).
Proof.
  split; [| split].
  - intros w'. unfold Literal.check_input, Literal.to_array.
    destruct (Z.lt_ge_cases n 0) as [Hneg | Hpos].
    + erewrite bind_raise;
        [| erewrite bind_raise;
           [| unfold Py.lift; rewrite (digits_of_negative n Hneg); reflexivity];
           reflexivity].
      discriminate.
    + destruct (digits_of_nonnegative n Hpos) as (ds & Hds & Hval & Hhead & Hne).
      erewrite bind_ok;
        [| erewrite bind_ok; [| unfold Py.lift; rewrite Hds; reflexivity]; reflexivity].
      intros Hrun. apply check_array_inv in Hrun as (-> & Hb & Hk & _).
      cbn [mem]. repeat split; try apply Hb; try exact Hval.
      destruct Hhead as [-> | Hh]; [left; reflexivity | right].
      destruct ds as [|d ds]; [contradiction |].
      destruct Hb as [_ Hb]. inversion Hb as [| ? ? [-> | ->] _]; subst;
        [contradiction Hh; reflexivity | reflexivity].
  - intros a Hk Ha Hhead. unfold Literal.check_input, Literal.to_array.
    erewrite bind_ok;
      [| erewrite bind_ok;
         [| unfold Py.lift; rewrite (str_of_decimal_bits a (proj2 Ha) Hhead); reflexivity];
         reflexivity].
    apply check_array_ok; [lia | exact Ha |].
    destruct Hhead as [-> | Hh]; [discriminate | destruct a; discriminate].
  - intros Hneg. unfold Literal.check_input, Literal.to_array.
    erewrite bind_raise;
      [| erewrite bind_raise;
         [| unfold Py.lift; rewrite (digits_of_negative n Hneg); reflexivity];
         reflexivity].
    reflexivity.
Qed.

Lemma check_input_int_witness :
  Literal.check_input (Literal.Int (Literal.decimal [1; 0; 1; 0])) 4
    (World [] [] (fun _ => 0) 0)
  = (Ok tt, World [1; 0; 1; 0] [] (fun _ => 0) 0) ∧
  Literal.check_input (Literal.Int (-1010)) 4 (World [] [] (fun _ => 0) 0)
  = (Raise ValueError, World [] [] (fun _ => 0) 0).
Proof.
  split.
  - apply (proj1 (proj2 (check_input_int 0 4 (World [] [] (fun _ => 0) 0)))
             [1; 0; 1; 0]); [lia | compute_done | right; reflexivity].
  - apply (proj2 (proj2 (check_input_int (-1010) 4 (World [] [] (fun _ => 0) 0)))).
    lia.
Defined.

(** *** A [str] argument *)






(** *** A [list] argument, and the arguments that are always refused *)

(** X19: a non-empty list of integers is checked exactly as the integer
    array with the same elements is: each of the two calls ends with the
    same result and the same array.  The empty list is refused whatever
    length is expected, also the length 0 for which the empty integer
    array is accepted, and so is a [bool]. *)
Theorem check_input_list l input_length w :
  (l ≠ [] ->
     Literal.check_input (Literal.List l) input_length w
     = Support.check_input input_length (World l (out w) (rng w) (drawn w))) ∧
  fst (Literal.check_input (Literal.List []) input_length w) = Raise ValueError ∧
  Support.check_input 0 (World [] (out w) (rng w) (drawn w))
  = (Ok tt, World [] (out w) (rng w) (drawn w)) ∧
  (forall b, fst (Literal.check_input (Literal.Bool b) input_length w) = Raise ValueError).
Proof.
  split; [| split; [| split]].
  - intros Hne. unfold Literal.check_input, Literal.to_array, Support.check_input.
    erewrite bind_ok; [| reflexivity].
    unfold Py.bind, Py.load, Py.store. cbn [mem out rng drawn].
    destruct (Np.size l =? input_length); cbn [negb]; [| reflexivity].
    destruct (forallb (fun a => (a =? 0) || (a =? 1)) l) eqn:Hbits.
    + rewrite (bits_have_integer_dtype l Hne Hbits). reflexivity.
    + destruct (Literal.array_dtype_is_integer l); reflexivity.
  - unfold Literal.check_input, Literal.to_array, Py.bind, Py.load, Py.store, Np.size.
    cbn. destruct (Z.of_nat 0 =? input_length); reflexivity.
  - reflexivity.
  - intros [|]; reflexivity.
Qed.

Lemma check_input_list_witness :
  Literal.check_input (Literal.List [1; 0; 1; 0]) 4 (World [] [] (fun _ => 0) 0)
  = Support.check_input 4 (World [1; 0; 1; 0] [] (fun _ => 0) 0).
Proof.
  apply (proj1 (check_input_list [1; 0; 1; 0] 4 (World [] [] (fun _ => 0) 0))).
  discriminate.
Defined.

End LiteralFacts.

(** ** [create_random_vector] *)

(** X20: [create_random_vector] always makes a valid message.  Whatever
    the entropy, it returns a vector of four bits, having drawn four
    random numbers and touched neither the array nor the output; so
    [encoder] accepts what it returns and gives its codeword. *)
Theorem create_random_vector_is_a_message w :
  exists v,
    create_random_vector w
    = (Ok v, World (mem w) (out w) (rng w) (4 + drawn w)) ∧
    bitvector 4 v ∧
    value (call (rng w) Hamming.encoder v) = Ok (mul_mod2 Hamming.G v).
Proof.
  unfold create_random_vector, Py.bind, Py.randint, Py.ret.
  cbn [mem out rng drawn].
  eexists. split; [reflexivity |].
  assert (forall z, 0 + z `mod` (2 - 1 - 0 + 1) = 0 ∨ 0 + z `mod` (2 - 1 - 0 + 1) = 1) as Hbit.
  { intros z. pose proof (Z.mod_pos_bound z 2).
    change (2 - 1 - 0 + 1) with 2. lia. }
  assert (bitvector 4
            [0 + rng w (drawn w) `mod` (2 - 1 - 0 + 1);
             0 + rng w (S (drawn w)) `mod` (2 - 1 - 0 + 1);
             0 + rng w (S (S (drawn w))) `mod` (2 - 1 - 0 + 1);
             0 + rng w (S (S (S (drawn w)))) `mod` (2 - 1 - 0 + 1)]) as Hv.
  { split; [reflexivity |].
    repeat (apply List.Forall_cons; [apply Hbit |]). apply List.Forall_nil. }
  split; [exact Hv |]. rewrite (encoder_run _ _ Hv). reflexivity.
Qed.
